(** * vufs: a 9P2000 file server with virtual users

    A shallow embedding of the request handlers of [vufs.go]
    ([rversion], [rattach], [rcreate], [CheckPerm], [rwalk], [buildfile])
    together with the properties the specification states about them.

    Go values are modelled as follows.
    - Unsigned integers ([uint8], [uint16], [uint32], [uint64], [Perm]) are
      [Z]; conversions that can wrap are written out with [mod].
    - Go strings are [string] (sequences of bytes).
    - Pointers ([*File], [*Fid]) are locations into two heaps, finite maps
      from locations to records.  A location that is not in its heap plays
      the part of the nil pointer: reading through it is a run-time panic,
      which the handlers report as [None].
    - Go maps are [gmap]; a nil map is [None] in an [option (gmap _ _)]
      (reading a nil map finds nothing, writing to it panics).
    - The host file system and the clock are an oracle record ([Host]);
      the host calls a handler performs are returned as a trace. *)

From Stdlib Require Import Ascii.
From stdpp Require Import gmap strings list pretty.

Local Open Scope string_scope.
Local Open Scope list_scope.
Local Open Scope Z_scope.

(** ** Protocol constants *)

(** Modelled from the spec: [const.go] is not among the sources.  The
    values are those of 9P2000 (Plan 9 manual, section 5), which the
    specification names as the wire protocol: the DIR bit is the high bit
    of [qid.type], [qid.type] is the high byte of the 32-bit mode, and the
    low three bits of a permission triple are r, w, x. *)
Definition QTDIR : Z := 0x80.
Definition QTFILE : Z := 0x00.
Definition DMDIR : Z := 0x80000000.
Definition DMAPPEND : Z := 0x40000000.
Definition DMEXCL : Z := 0x20000000.
Definition DMREAD : Z := 0x4.
Definition DMWRITE : Z := 0x2.
Definition DMEXEC : Z := 0x1.

(** Modelled from the spec: the open modes of 9P2000, also from
    [const.go]. *)
Definition OREAD : Z := 0.
Definition OWRITE : Z := 1.
Definition ORDWR : Z := 2.
Definition OEXEC : Z := 3.
Definition OTRUNC : Z := 16.

(** Modelled from the spec: "NOFID is 0xFFFFFFFF"; the server "accepts
    only protocol string prefix 9P2000". *)
Definition NOFID : Z := 0xFFFFFFFF.
Definition VERSION9P : string := "9P2000".

(** Modelled from the spec: the message types of 9P2000, also from
    [const.go]; an R-message is its T-message plus one. *)
Definition Tversion : Z := 100.
Definition Rversion : Z := 101.
Definition Tauth : Z := 102.
Definition Tattach : Z := 104.
Definition Rerror : Z := 107.
Definition Twalk : Z := 110.
Definition Tcreate : Z := 114.
Definition Rcreate : Z := 115.
Definition Tstat : Z := 124.

(** Flags of Go's [os] package (their numeric values are the host's; only
    their being distinct bits matters here). *)
Definition O_RDONLY : Z := 0x0.
Definition O_WRONLY : Z := 0x1.
Definition O_RDWR : Z := 0x2.
Definition O_CREATE : Z := 0x40.
Definition O_EXCL : Z := 0x80.
Definition O_TRUNC : Z := 0x200.
Definition O_APPEND : Z := 0x400.

(** ** Data model *)

(** A location in one of the two heaps. *)
Abbreviation loc := nat.

(** [Qid{Path, Vers, Type}]. *)
Record Qid := mkQid {
  Path : Z;
  Vers : Z;
  QType : Z;   (* Qid.Type, uint8 *)
}.

(** [Dir]: the stat record a [File] embeds.  [DType] is the record's own
    16-bit [Type] field, the one the selector [f.Type] on a [File] denotes;
    [DQid] is its [Qid]. *)
Record Dir := mkDir {
  DType : Z;   (* Dir.Type, uint16 *)
  Dev : Z;
  DQid : Qid;
  Mode : Z;    (* Perm, uint32 *)
  Atime : Z;
  Mtime : Z;
  Length : Z;
  Name : string;
  Uid : string;
  Gid : string;
  Muid : string;
}.

(** [File{Dir, parent, children}]. *)
Record File := mkFile {
  dir : Dir;
  parent : loc;
  children : option (gmap string loc);
}.

(** [Fid{file, uid, open}]. *)
Record Fid := mkFid {
  file : loc;
  uid : string;
  open : bool;
}.

(** Reading [m[k]] from a Go map that may be nil. *)
Definition map_get {V} (m : option (gmap string V)) (k : string) : option V :=
  match m with
  | Some m => m !! k
  | None => None
  end.

(** ** Authorization *)

(** [CheckPerm(f, uid, perm)], vufs.go:323, on the stat record of the
    node, the only part of [f] it reads.  The group step of the source is
    commented out there and so takes no part in the function. *)
Definition CheckPerm (f : Dir) (uid : string) (perm : Z) : bool :=
  if String.eqb uid "" then false
  else
    let perm := Z.land perm 7 in
    (* other permissions *)
    let fperm := Z.land (Mode f) 7 in
    if Z.land fperm perm =? perm then true
    else
      (* uid permissions *)
      let fperm :=
        if String.eqb (Uid f) uid
        then Z.lor fperm (Z.land (Z.shiftr (Mode f) 6) 7)
        else fperm in
      if Z.land fperm perm =? perm then true
      else false.

(** The reference algorithm of the specification (section 4.E), written
    from its words; [is_member u g] answers whether user [u] is a member of
    the group named [g]. *)
Definition check_perm_spec (is_member : string -> string -> bool)
    (node : Dir) (uid : string) (want : Z) : bool :=
  if String.eqb uid "" then false
  else
    let m := Z.land (Mode node) 7 in
    let m := if String.eqb (Uid node) uid
             then Z.lor m (Z.land (Z.shiftr (Mode node) 6) 7) else m in
    let m := if is_member uid (Gid node)
             then Z.lor m (Z.land (Z.shiftr (Mode node) 3) 7) else m in
    Z.land m want =? want.

(** The effective mask [CheckPerm] ends up comparing against. *)
Definition effective_mask (f : Dir) (uid : string) : Z :=
  if String.eqb (Uid f) uid
  then Z.lor (Z.land (Mode f) 7) (Z.land (Z.shiftr (Mode f) 6) 7)
  else Z.land (Mode f) 7.

(** ** Messages and server state *)

(** [Fcall]: one record type serves for requests and for the shared
    response [rc]; only the fields the handlers touch are kept. *)
Record Fcall := mkFcall {
  fcType : Z;
  fcFid : Z;
  fcTag : Z;
  fcMsize : Z;
  fcVersion : string;
  fcAfid : Z;
  fcUname : string;
  fcAname : string;
  fcName : string;
  fcPerm : Z;
  fcMode : Z;
  fcNewfid : Z;
  fcWname : list string;
  fcWqid : list Qid;
  fcQid : Qid;
  fcEname : string;
}.

(** The part of the program state a handler can reach: the two heaps, the
    root of [vu.tree], the fid table and [msize] of the connection the
    request came in on, and the shared response [rc]. *)
Record World := mkWorld {
  files : gmap loc File;      (* heap of File objects *)
  fidobjs : gmap loc Fid;     (* heap of Fid objects *)
  root : loc;                 (* vu.tree.root *)
  fids : gmap Z loc;          (* r.conn.fids *)
  msize : Z;                  (* r.conn.msize *)
  rc : Fcall;                 (* var rc *Fcall *)
}.

Definition set_files (g : gmap loc File -> gmap loc File) (w : World) : World :=
  mkWorld (g (files w)) (fidobjs w) (root w) (fids w) (msize w) (rc w).
Definition set_fidobjs (g : gmap loc Fid -> gmap loc Fid) (w : World) : World :=
  mkWorld (files w) (g (fidobjs w)) (root w) (fids w) (msize w) (rc w).
Definition set_fids (g : gmap Z loc -> gmap Z loc) (w : World) : World :=
  mkWorld (files w) (fidobjs w) (root w) (g (fids w)) (msize w) (rc w).
Definition set_msize (m : Z) (w : World) : World :=
  mkWorld (files w) (fidobjs w) (root w) (fids w) m (rc w).
Definition set_rc (g : Fcall -> Fcall) (w : World) : World :=
  mkWorld (files w) (fidobjs w) (root w) (fids w) (msize w) (g (rc w)).

Definition rc_Type (v : Z) (c : Fcall) : Fcall :=
  mkFcall v (fcFid c) (fcTag c) (fcMsize c) (fcVersion c) (fcAfid c)
    (fcUname c) (fcAname c) (fcName c) (fcPerm c) (fcMode c) (fcNewfid c)
    (fcWname c) (fcWqid c) (fcQid c) (fcEname c).
Definition rc_Fid (v : Z) (c : Fcall) : Fcall :=
  mkFcall (fcType c) v (fcTag c) (fcMsize c) (fcVersion c) (fcAfid c)
    (fcUname c) (fcAname c) (fcName c) (fcPerm c) (fcMode c) (fcNewfid c)
    (fcWname c) (fcWqid c) (fcQid c) (fcEname c).
Definition rc_Tag (v : Z) (c : Fcall) : Fcall :=
  mkFcall (fcType c) (fcFid c) v (fcMsize c) (fcVersion c) (fcAfid c)
    (fcUname c) (fcAname c) (fcName c) (fcPerm c) (fcMode c) (fcNewfid c)
    (fcWname c) (fcWqid c) (fcQid c) (fcEname c).
Definition rc_Msize (v : Z) (c : Fcall) : Fcall :=
  mkFcall (fcType c) (fcFid c) (fcTag c) v (fcVersion c) (fcAfid c)
    (fcUname c) (fcAname c) (fcName c) (fcPerm c) (fcMode c) (fcNewfid c)
    (fcWname c) (fcWqid c) (fcQid c) (fcEname c).
Definition rc_Version (v : string) (c : Fcall) : Fcall :=
  mkFcall (fcType c) (fcFid c) (fcTag c) (fcMsize c) v (fcAfid c)
    (fcUname c) (fcAname c) (fcName c) (fcPerm c) (fcMode c) (fcNewfid c)
    (fcWname c) (fcWqid c) (fcQid c) (fcEname c).
Definition rc_Wqid (v : list Qid) (c : Fcall) : Fcall :=
  mkFcall (fcType c) (fcFid c) (fcTag c) (fcMsize c) (fcVersion c) (fcAfid c)
    (fcUname c) (fcAname c) (fcName c) (fcPerm c) (fcMode c) (fcNewfid c)
    (fcWname c) v (fcQid c) (fcEname c).
Definition rc_Qid (v : Qid) (c : Fcall) : Fcall :=
  mkFcall (fcType c) (fcFid c) (fcTag c) (fcMsize c) (fcVersion c) (fcAfid c)
    (fcUname c) (fcAname c) (fcName c) (fcPerm c) (fcMode c) (fcNewfid c)
    (fcWname c) (fcWqid c) v (fcEname c).
Definition rc_Ename (v : string) (c : Fcall) : Fcall :=
  mkFcall (fcType c) (fcFid c) (fcTag c) (fcMsize c) (fcVersion c) (fcAfid c)
    (fcUname c) (fcAname c) (fcName c) (fcPerm c) (fcMode c) (fcNewfid c)
    (fcWname c) (fcWqid c) (fcQid c) v.

(** [new(T)] / [&T{...}]: a location the heap does not hold yet. *)
Definition alloc {A} (h : gmap loc A) : loc := fresh (dom h).

(** What a handler hands back: the error string it returns (empty on
    success) and the state it leaves.  [None] is a run-time panic. *)
Definition Handled : Type := option (string * World).

(** The tail of [fcallhandler], vufs.go:457-464: the reply is [Rerror]
    with the handler's message, or the request type plus one. *)
Definition respond (x : Fcall) (emsg : string) (w : World) : World :=
  let w :=
    if negb (String.eqb emsg "")
    then set_rc (fun c => rc_Ename emsg (rc_Type Rerror c)) w
    else set_rc (fun c => rc_Fid (fcFid x) (rc_Type (fcType x + 1) c)) w in
  set_rc (rc_Tag (fcTag x)) w.

(** ** Version negotiation *)

(** [strings.Index(s, ".")]: the offset of the first dot, or -1. *)
Fixpoint index_dot (s : string) : Z :=
  match s with
  | EmptyString => -1
  | String c s' =>
      if Ascii.eqb c "."%char then 0
      else let i := index_dot s' in if i <? 0 then -1 else i + 1
  end.

(** [s[:i]] for [0 <= i <= len(s)]. *)
Definition slice_to (s : string) (i : Z) : string :=
  String.substring 0 (Z.to_nat i) s.

(** The version string [rversion] settles on, vufs.go:145-152. *)
Definition negotiate (version : string) : string :=
  let ver := version in
  let i := index_dot ver in
  let ver := if 0 <? i then slice_to ver i else ver in
  if negb (String.eqb ver VERSION9P) then "unknown" else ver.

(** [rversion], vufs.go:142.  [MAX_MSIZE] is a constant of a file that is
    not among the sources and is taken as a parameter.  [pending] says
    whether a request is waiting on [vu.fcallchan] when the [select] of
    the drain loop runs; the loop body runs at most once, since it either
    returns or sets [done]. *)
Definition rversion (MAX_MSIZE : Z) (pending : bool) (fc : Fcall) (w : World)
    : Handled :=
  let ver := negotiate (fcVersion fc) in
  let msz := fcMsize fc in
  let msz := if MAX_MSIZE <? msz then MAX_MSIZE else msz in
  if negb (String.eqb ver "unknown") && pending
  then Some ("new session started, dropping this request", w)
  else
    let w := set_msize msz w in
    let w := set_rc (fun c => rc_Version ver (rc_Msize msz (rc_Type Rversion c))) w in
    Some ("", w).

(** ** Attach *)

(** [rattach], vufs.go:181. *)
Definition rattach (fc : Fcall) (w : World) : Handled :=
  if negb (String.eqb (fcAname fc) "/")
  then Some ("can only attach to root directory", w)
  else if negb (fcAfid fc =? NOFID)
  then Some ("authentication not supported", w)
  else
    match fids w !! fcFid fc with
    | Some _ => Some ("fid already in use on this connection", w)
    | None =>
        let p := alloc (fidobjs w) in
        let w := set_fidobjs <[p := mkFid (root w) (fcUname fc) false]> w in
        let w := set_fids <[fcFid fc := p]> w in
        match files w !! root w with
        | Some r => Some ("", set_rc (rc_Qid (DQid (dir r))) w)
        | None => None
        end
    end.

(** ** Walk *)

(** The guard in front of the permission check in the walk loop,
    [f.Type & QTDIR == 1 && !CheckPerm(f, fid.uid, DMEXEC)], vufs.go:417. *)
Definition walk_denied (f : File) (uid : string) : bool :=
  (Z.land (DType (dir f)) QTDIR =? 1) && negb (CheckPerm (dir f) uid DMEXEC).

(** How the loop of [rwalk] ends. *)
Inductive WalkEnd :=
  | WalkError (emsg : string)             (* failure at the first name *)
  | WalkShort (wqid : list Qid)           (* failure at a later name *)
  | WalkAll (f : loc) (wqid : list Qid).  (* every name walked *)

(** The loop of [rwalk], vufs.go:403-428; [i] is the index of the first
    name of [wnames] in the request and [wqid] is [rc.Wqid]. *)
Fixpoint walk_loop (fs : gmap loc File) (uid : string) (f : loc) (i : nat)
    (wnames : list string) (wqid : list Qid) : option WalkEnd :=
  match wnames with
  | [] => Some (WalkAll f wqid)
  | wn :: rest =>
      match fs !! f with
      | None => None
      | Some fo =>
          if String.eqb wn ".." then
            let f := parent fo in
            match fs !! f with
            | None => None
            | Some fo => walk_loop fs uid f (S i) rest (wqid ++ [DQid (dir fo)])
            end
          else
            match map_get (children fo) wn with
            | None =>
                if Nat.eqb i 0
                then Some (WalkError ("'" +:+ wn +:+ "' not found"))
                else Some (WalkShort wqid)
            | Some f =>
                match fs !! f with
                | None => None
                | Some fo =>
                    if walk_denied fo uid then
                      if Nat.eqb i 0
                      then Some (WalkError "permission denied")
                      else Some (WalkShort wqid)
                    else walk_loop fs uid f (S i) rest (wqid ++ [DQid (dir fo)])
                end
            end
      end
  end.

(** [rwalk], vufs.go:375. *)
Definition rwalk (tx : Fcall) (w : World) : Handled :=
  match fids w !! fcFid tx with
  | None => Some ("fid " +:+ pretty (fcFid tx) +:+ " not found", w)
  | Some p =>
      match fidobjs w !! p with
      | None => None
      | Some fid =>
          match
            (if negb (Nat.eqb (length (fcWname tx)) 0)
             then match files w !! file fid with
                  | None => None
                  | Some fo => Some (Z.land (DType (dir fo)) QTDIR =? 1)
                  end
             else Some false)
          with
          | None => None
          | Some true => Some ("not a directory", w)
          | Some false =>
              if open fid then Some ("already open", w)
              else if Nat.eqb (length (fcWname tx)) 0
              then Some ("", set_fids <[fcNewfid tx := p]> w)
              else
                match fids w !! fcNewfid tx with
                | Some _ => Some ("already in use", w)
                | None =>
                    match walk_loop (files w) (uid fid) (file fid) 0
                            (fcWname tx) (fcWqid (rc w)) with
                    | None => None
                    | Some (WalkError emsg) => Some (emsg, w)
                    | Some (WalkShort wqid) => Some ("", set_rc (rc_Wqid wqid) w)
                    | Some (WalkAll f wqid) =>
                        let w := set_rc (rc_Wqid wqid) w in
                        let q := alloc (fidobjs w) in
                        let w := set_fidobjs <[q := mkFid f (uid fid) false]> w in
                        Some ("", set_fids <[fcNewfid tx := q]> w)
                    end
                end
          end
      end
  end.

(** ** The host: file system, paths and clock *)

(** [time.Time], as far as the code looks at it: whole seconds since the
    epoch and the nanoseconds within the second. *)
Record Time := mkTime {
  Unix : Z;
  Nanosecond : Z;
}.

Definition UnixNano (t : Time) : Z := Unix t * 1000000000 + Nanosecond t.

(** [syscall.Stat_t]: the inode, and the access time in seconds that the
    helper [atime(stat).Unix()] reads off it. *)
Record Stat_t := mkStat_t {
  Ino : Z;
  Atim : Z;
}.

(** What [info.Sys()] can hold. *)
Inductive Sys :=
  | SysNil
  | SysStat (st : Stat_t)
  | SysOther.

(** [os.FileInfo]. *)
Record FileInfo := mkFileInfo {
  fiName : string;
  fiSize : Z;
  fiMode : Z;
  fiModTime : Time;
  fiIsDir : bool;
  fiSys : Sys;
}.

(** The host calls a handler can make. *)
Inductive HostCall :=
  | OpenFile (name : string) (flag perm : Z)
  | WriteString (name : string) (data : string)
  | Close (name : string)
  | Stat (name : string)
  | Remove (name : string).

(** The answers of the host: [filepath.Join], the error (if any) of each
    call, what [Stat] of an open file returns, and [time.Now().Unix()]. *)
Record Host := mkHost {
  Join : list string -> string;
  OpenFile_err : string -> Z -> Z -> option string;
  WriteString_err : string -> string -> option string;
  Stat_res : string -> string + FileInfo;
  Remove_err : string -> option string;
  Now : Z;
}.

Definition newline : string := String "010"%char "".

(** [openflags], vufs.go:91. *)
Definition openflags (mode perm : Z) : Z :=
  let ret := 0 in
  let ret :=
    if Z.land mode 3 =? OREAD then O_RDONLY
    else if Z.land mode 3 =? ORDWR then O_RDWR
    else if Z.land mode 3 =? OWRITE then O_WRONLY
    else if Z.land mode 3 =? OEXEC then O_RDONLY
    else ret in
  let ret := if negb (Z.land mode OTRUNC =? 0) then Z.lor ret O_TRUNC else ret in
  let ret := if negb (Z.land perm DMAPPEND =? 0) then Z.lor ret O_APPEND else ret in
  let ret := if negb (Z.land perm DMEXCL =? 0) then Z.lor ret O_EXCL else ret in
  ret.

(** [writeOwnership], vufs.go:122: the error it returns, and the host
    calls it made. *)
Definition writeOwnership (H : Host) (path uid gid : string)
    : option string * list HostCall :=
  let fn := path +:+ ".vufs" in
  let flag := Z.lor (Z.lor O_TRUNC O_WRONLY) O_CREATE in
  match OpenFile_err H fn flag 0x180 (* 0600 *) with
  | Some err => (Some err, [OpenFile fn flag 0x180])
  | None =>
      let data := uid +:+ ":" +:+ gid +:+ newline in
      let calls := [OpenFile fn flag 0x180; WriteString fn data; Close fn] in
      match WriteString_err H fn data with
      | Some err => (Some err, calls)
      | None => (None, calls)
      end
  end.

(** [info2stat], vufs.go:533. *)
Definition info2stat (info : FileInfo) : string + Stat_t :=
  match fiSys info with
  | SysNil => inl "no info.Sys() on this system"
  | SysStat st => inr st
  | SysOther => inl "invalid info.Sys() on this system"
  end.

(** The clean-up both failure branches after the sidecar share,
    vufs.go:280-285 and 289-294. *)
Definition remove_after_failure (H : Host) (ospath emsg : string)
    : string * list HostCall :=
  match Remove_err H ospath with
  | Some _ => (emsg +:+ " (and file was left on disk)", [Remove ospath])
  | None => (emsg, [Remove ospath])
  end.

(** What [rcreate] hands back: as [Handled], with the host calls made. *)
Definition Created : Type := option (string * World * list HostCall).

(** [rcreate], vufs.go:223.  [Root] is [vu.Root]. *)
Definition rcreate (H : Host) (Root : string) (fc : Fcall) (w : World) : Created :=
  match fids w !! fcFid fc with
  | None => Some ("fid not found", w, [])
  | Some p =>
    match fidobjs w !! p with
    | None => None
    | Some fid =>
      let parent' := file fid in
      match files w !! parent' with
      | None => None
      | Some pf =>
        if Z.land (QType (DQid (dir pf))) QTDIR =? 0
        then Some (Name (dir pf) +:+ " is not a directory", w, [])
        else if String.eqb (fcName fc) "." || String.eqb (fcName fc) ".."
        then Some (fcName fc +:+ " invalid name", w, [])
        else if negb (CheckPerm (dir pf) (uid fid) DMWRITE)
        then Some ("permission denied", w, [])
        else if bool_decide (is_Some (map_get (children pf) (fcName fc)))
        then Some ("already exists", w, [])
        else if (Z.land (fcPerm fc) QTDIR =? 1)
                && negb (Z.land (fcMode fc) 3 =? OREAD)
        then Some ("can only create a directory in read mode", w, [])
        else
          let ospath := Join H [Root; Name (dir pf); fcName fc] in
          let fsyspath := Join H [Name (dir pf); fcName fc] in
          let goflags := Z.lor (openflags (fcMode fc) (fcPerm fc)) O_CREATE in
          let gomode := Z.land (fcPerm fc) 0x1FF (* 0777 *) in
          let t0 := [OpenFile ospath goflags gomode] in
          match OpenFile_err H ospath goflags gomode with
          | Some err => Some (fsyspath +:+ ": " +:+ err, w, t0)
          | None =>
            (* Owner of new file is user that attached.
               Group is from parent directory. *)
            let uid := uid fid in
            let gid := Gid (dir pf) in
            let '(err, t1) := writeOwnership H ospath uid gid in
            match err with
            | Some err => Some (fsyspath +:+ ": " +:+ err, w, t0 ++ t1)
            | None =>
              let t2 := t0 ++ t1 ++ [Stat ospath] in
              match Stat_res H ospath with
              | inl err =>
                  let '(emsg, t3) :=
                    remove_after_failure H ospath (fsyspath +:+ ": " +:+ err) in
                  Some (emsg, w, t2 ++ t3)
              | inr info =>
                match info2stat info with
                | inl err =>
                    let '(emsg, t3) :=
                      remove_after_failure H ospath (fsyspath +:+ ": " +:+ err) in
                    Some (emsg, w, t2 ++ t3)
                | inr stat =>
                  (* Times in 9p messages will wrap in 2106. *)
                  let now := Now H `mod` 2 ^ 32 in
                  let f := alloc (files w) in
                  let qid := mkQid (Ino stat) 0 ((fcPerm fc ≫ 24) `mod` 2 ^ 8) in
                  let fo :=
                    mkFile
                      (mkDir 0 0 qid (fcPerm fc) now now 0 (fcName fc) uid gid uid)
                      parent' None in
                  match children pf with
                  | None => None    (* assignment to entry in nil map *)
                  | Some ch =>
                    let pf' := mkFile (dir pf) (parent pf)
                                 (Some (<[fcName fc := f]> ch)) in
                    let w := set_files (fun fs => <[parent' := pf']> (<[f := fo]> fs)) w in
                    let q := alloc (fidobjs w) in
                    let w := set_fidobjs <[q := mkFid f uid true]> w in
                    let w := set_fids <[fcFid fc := q]> w in
                    let w := set_rc (fun c => rc_Qid qid (rc_Type Rcreate c)) w in
                    Some ("", w, t2)
                  end
                end
              end
            end
          end
      end
    end
  end.

(** ** Building the tree at startup *)

(** The state the tree walk works on: the heap of [File] objects and the
    global [loadmap]. *)
Record Loading := mkLoading {
  lfiles : gmap loc File;
  loadmap : gmap string loc;
}.

(** [buildfile], vufs.go:546.  [nullDir] is what [f.Null()] leaves in the
    embedded [Dir] and [DEFAULT_USER] the default principal; both belong to
    files that are not among the sources and are parameters.  The result
    is the error or the new node, with the heap after the call; [None] is
    a panic. *)
Definition buildfile (H : Host) (nullDir : Dir) (DEFAULT_USER : string)
    (Root : string) (ospath : string) (info : FileInfo) (s : Loading)
    : option ((string + loc) * gmap loc File) :=
  match info2stat info with
  | inl err => Some (inl err, lfiles s)
  | inr stat =>
      let f := alloc (lfiles s) in
      let Path := Ino stat in
      let Vers := (UnixNano (fiModTime info) `quot` 1000000) `mod` 2 ^ 32 in
      (* BUG(mbucc) We drop all higher file mode bits when loading tree. *)
      let Mode := Z.land (fiMode info) 0x1FF (* 0777 *) in
      let Atime := Atim stat `mod` 2 ^ 32 in
      let Mtime := Unix (fiModTime info) `mod` 2 ^ 32 in
      let Length := fiSize info `mod` 2 ^ 64 in
      let Name := fiName info in
      let Mode := if fiIsDir info then Z.lor Mode DMDIR else Mode in
      let Vers := if fiIsDir info then Z.lor Vers QTDIR else Vers in
      let Length := if fiIsDir info then 0 else Length in
      let node (Mode : Z) (Name : string) (parent : loc) :=
        mkFile
          (mkDir (DType nullDir) (Dev nullDir)
             (mkQid Path Vers (QType (DQid nullDir)))
             Mode Atime Mtime Length Name
             DEFAULT_USER DEFAULT_USER DEFAULT_USER)
          parent (Some ∅) (* make(map[string]*File) *) in
      if negb (String.eqb ospath Root) then
        let parentpath := Join H [ospath; ".."] in
        match loadmap s !! parentpath with
        | None =>
            Some (inl ("parent '" +:+ parentpath +:+ "' not in loadmap for '"
                       +:+ ospath +:+ "'"), lfiles s)
        | Some par =>
            match lfiles s !! par with
            | None => None
            | Some pf =>
                match children pf with
                | None => None
                | Some ch =>
                    let pf' := mkFile (dir pf) (parent pf) (Some (<[Name := f]> ch)) in
                    Some (inr f, <[par := pf']> (<[f := node Mode Name par]> (lfiles s)))
                end
            end
        end
      else
        (* Hard code the mode of root directory to 0777. *)
        Some (inr f, <[f := node 0x1FF "/" f]> (lfiles s))
  end.

(** [buildnode], vufs.go:602: the callback of [filepath.Walk].  [err] is
    the error the walk hands in; the result is the error returned. *)
Definition buildnode (H : Host) (nullDir : Dir) (DEFAULT_USER : string)
    (Root : string) (path : string) (info : FileInfo) (err : option string)
    (s : Loading) : option (option string * Loading) :=
  match err with
  | Some err => Some (Some err, s)
  | None =>
      match buildfile H nullDir DEFAULT_USER Root path info s with
      | None => None
      | Some (inl err, fs) => Some (Some err, mkLoading fs (loadmap s))
      | Some (inr f, fs) => Some (None, mkLoading fs (<[path := f]> (loadmap s)))
      end
  end.

(** [filepath.Walk(vu.Root, vu.buildnode)] over the entries the host
    yields, in the order it yields them; the walk stops at the first error
    the callback returns. *)
Fixpoint walk_entries (H : Host) (nullDir : Dir) (DEFAULT_USER : string)
    (Root : string) (entries : list (string * FileInfo)) (s : Loading)
    : option (option string * Loading) :=
  match entries with
  | [] => Some (None, s)
  | (path, info) :: rest =>
      match buildnode H nullDir DEFAULT_USER Root path info None s with
      | None => None
      | Some (Some err, s) => Some (Some err, s)
      | Some (None, s) => walk_entries H nullDir DEFAULT_USER Root rest s
      end
  end.

(** [buildtree], vufs.go:621: the error, or the heap and the root
    ([vu.tree.root]) of the tree it built. *)
Definition buildtree (H : Host) (nullDir : Dir) (DEFAULT_USER : string)
    (Root : string) (entries : list (string * FileInfo))
    : option (string + gmap loc File * loc) :=
  match walk_entries H nullDir DEFAULT_USER Root entries (mkLoading ∅ ∅) with
  | None => None
  | Some (Some err, _) => Some (inl err)
  | Some (None, s) =>
      match loadmap s !! Root with
      | None => Some (inl ("didn't load file for root dir '" +:+ Root +:+ "'"))
      | Some f => Some (inr (lfiles s, f))
      end
  end.

(** ** Reading through a fid handle *)

(** [*c.fids[k]]: the record a handle denotes. *)
Definition fid_load (k : Z) (w : World) : option Fid :=
  match fids w !! k with
  | Some p => fidobjs w !! p
  | None => None
  end.

(** ** Vocabulary of the statements *)

(** The DIR bit of a qid's type. *)
Definition has_DIR_bit (q : Qid) : bool := negb (Z.land (QType q) QTDIR =? 0).

(** A version string the specification's amended wording accepts: the
    protocol name itself, or the protocol name followed by a dot and
    anything. *)
Definition accepted (version : string) : Prop :=
  version = "9P2000" \/ exists s, version = "9P2000." +:+ s.

(** One name of a walk resolves from node [f] to node [f']: [".."] leads
    to the parent; any other name is looked up among the children, and the
    child must pass the guard of the loop. *)
Definition resolves (fs : gmap loc File) (uid : string) (f : loc)
    (wn : string) (f' : loc) : Prop :=
  exists fo, fs !! f = Some fo /\
    ((wn = ".." /\ f' = parent fo) \/
     (wn <> ".." /\ map_get (children fo) wn = Some f' /\
      exists fo', fs !! f' = Some fo' /\ walk_denied fo' uid = false)).

(** One name of a walk fails at node [f]: it is not among the children, or
    the child is refused by the guard of the loop. *)
Definition fails_at (fs : gmap loc File) (uid : string) (f : loc)
    (wn : string) : Prop :=
  exists fo, fs !! f = Some fo /\ wn <> ".." /\
    (map_get (children fo) wn = None \/
     exists f' fo', map_get (children fo) wn = Some f' /\
       fs !! f' = Some fo' /\ walk_denied fo' uid = true).

(** [walks fs uid f names g qids]: every name of [names] resolves in
    turn, starting at [f] and ending at [g]; [qids] are the qids of the
    nodes stepped on. *)
Inductive walks (fs : gmap loc File) (uid : string)
    : loc -> list string -> loc -> list Qid -> Prop :=
  | walks_nil f : walks fs uid f [] f []
  | walks_cons f wn f' fo' ws g qids :
      resolves fs uid f wn f' ->
      fs !! f' = Some fo' ->
      walks fs uid f' ws g qids ->
      walks fs uid f (wn :: ws) g (DQid (dir fo') :: qids).

(** One name of a walk is found from node [f] and leads to node [f'] for
    a user who may enter it: [".."] leads to the parent; any other name is
    looked up among the children, and where the child is a directory the
    user holds X permission on it. *)
Definition enters (fs : gmap loc File) (uid : string) (f : loc)
    (wn : string) (f' : loc) : Prop :=
  exists fo, fs !! f = Some fo /\
    ((wn = ".." /\ f' = parent fo) \/
     (wn <> ".." /\ map_get (children fo) wn = Some f' /\
      exists fo', fs !! f' = Some fo' /\
        (has_DIR_bit (DQid (dir fo')) = true ->
         CheckPerm (dir fo') uid DMEXEC = true))).

(** One name of a walk is not found at node [f]: it is not [".."] and not
    among the children. *)
Definition not_found (fs : gmap loc File) (f : loc) (wn : string) : Prop :=
  exists fo, fs !! f = Some fo /\ wn <> ".." /\ map_get (children fo) wn = None.

(** [enters_all fs uid f names g qids]: every name of [names] is found in
    turn by a user who may enter, starting at [f] and ending at [g];
    [qids] are the qids of the nodes stepped on. *)
Inductive enters_all (fs : gmap loc File) (uid : string)
    : loc -> list string -> loc -> list Qid -> Prop :=
  | enters_nil f : enters_all fs uid f [] f []
  | enters_cons f wn f' fo' ws g qids :
      enters fs uid f wn f' ->
      fs !! f' = Some fo' ->
      enters_all fs uid f' ws g qids ->
      enters_all fs uid f (wn :: ws) g (DQid (dir fo') :: qids).

(** ** A small server used for the concrete cases *)

Definition zeroQid : Qid := mkQid 0 0 0.
Definition zeroFcall : Fcall :=
  mkFcall 0 0 0 0 "" 0 "" "" "" 0 0 0 [] [] zeroQid "".

(** A root directory (mode 0777) holding a directory [d] of mode 0700 that
    belongs to alice, which holds a file [x] of mode 0644. *)
Definition ex_root : File :=
  mkFile (mkDir 0 0 (mkQid 1 0 QTDIR) (Z.lor DMDIR 0x1FF) 0 0 0 "/" "adm" "adm" "adm")
    0%nat (Some {["d" := 1%nat]}).
Definition ex_d : File :=
  mkFile (mkDir 0 0 (mkQid 2 0 QTDIR) (Z.lor DMDIR 0x1C0) 0 0 0 "d" "alice" "staff" "alice")
    0%nat (Some {["x" := 2%nat]}).
Definition ex_x : File :=
  mkFile (mkDir 0 0 (mkQid 3 0 QTFILE) 0x1A4 0 0 0 "x" "alice" "staff" "alice")
    1%nat (Some ∅).
Definition ex_files : gmap loc File :=
  <[0%nat := ex_root]> (<[1%nat := ex_d]> (<[2%nat := ex_x]> ∅)).

(** A connection on which bob holds fid 1 and mark holds fid 2, both at
    the root and neither open. *)
Definition ex_world : World :=
  mkWorld ex_files
    (<[0%nat := mkFid 0%nat "bob" false]> (<[1%nat := mkFid 0%nat "mark" false]> ∅))
    0%nat (<[1 := 0%nat]> (<[2 := 1%nat]> ∅)) 8192 zeroFcall.

(** A connection on which alice, the owner of [d], holds fid 1 at the
    root. *)
Definition ex_world_alice : World :=
  mkWorld ex_files (<[0%nat := mkFid 0%nat "alice" false]> ∅)
    0%nat (<[1 := 0%nat]> ∅) 8192 zeroFcall.

Definition Twalk_msg (fid newfid : Z) (wname : list string) : Fcall :=
  mkFcall Twalk fid 7 0 "" 0 "" "" "" 0 0 newfid wname [] zeroQid "".
Definition Tattach_msg (fid afid : Z) (uname aname : string) : Fcall :=
  mkFcall Tattach fid 7 0 "" afid uname aname "" 0 0 0 [] [] zeroQid "".
Definition Tcreate_msg (fid : Z) (name : string) (perm mode : Z) : Fcall :=
  mkFcall Tcreate fid 7 0 "" 0 "" "" name perm mode 0 [] [] zeroQid "".
Definition Tversion_msg (msize : Z) (version : string) : Fcall :=
  mkFcall Tversion 0 7 msize version 0 "" "" "" 0 0 0 [] [] zeroQid "".

(** A host on which a call fails exactly when the file it acts on is in
    the list given for that call.  [Stat] answers with an entry of inode
    9; [ex_join] is [filepath.Join] on the paths the examples use, those of
    entries directly below the root [/srv]. *)
Definition ex_info (isdir : bool) : FileInfo :=
  mkFileInfo "x" 0 0x1A4 (mkTime 1000 0) isdir (SysStat (mkStat_t 9 1000)).
Definition ex_join (elem : list string) : string :=
  match elem with
  | [_; ".."] => "/srv"
  | [root; "/"; name] => root +:+ "/" +:+ name
  | ["/"; name] => "/" +:+ name
  | _ => String.concat "/" elem
  end.
Definition ex_host (open_fails write_fails stat_fails remove_fails : list string)
    : Host :=
  let err (l : list string) (n : string) : option string :=
    if bool_decide (n ∈ l) then Some "input/output error" else None in
  mkHost ex_join
    (fun n _ _ => err open_fails n)
    (fun n _ => err write_fails n)
    (fun n => if bool_decide (n ∈ stat_fails) then inl "input/output error"
              else inr (ex_info false))
    (fun n => err remove_fails n)
    1000.

(** The group table of the example: bob is a member of staff. *)
Definition ex_is_member (u g : string) : bool :=
  String.eqb u "bob" && String.eqb g "staff".

(** The loader state while the walk is below the root [/srv]. *)
Definition ex_loading : Loading :=
  mkLoading (<[0%nat := ex_root]> ∅) (<["/srv" := 0%nat]> ∅).

(** ** The remaining handlers and the dispatcher *)

(** [rauth], vufs.go:203. *)
Definition rauth (fc : Fcall) (w : World) : Handled :=
  Some ("not supported", w).

(** What [rstat] hands back: as [Handled], with the value it assigns to
    [rc.Stat] ([None] where it assigns nothing). *)
Definition Stated : Type := option (string * World * option string).

(** [rstat], vufs.go:208.  [Bytes] is the method [fid.file.Bytes()] of the
    embedded [Dir], which belongs to a file that is not among the sources
    and is a parameter: it yields the encoded record and the error, if
    any. *)
Definition rstat (Bytes : Dir -> string * option string) (fc : Fcall) (w : World)
    : Stated :=
  match fids w !! fcFid fc with
  | None => Some ("fid not found", w, None)
  | Some p =>
      match fidobjs w !! p with
      | None => None
      | Some fid =>
          match files w !! file fid with
          | None => None
          | Some fo =>
              match Bytes (dir fo) with
              | (stat, Some err) => Some ("stat: " +:+ err, w, Some stat)
              | (stat, None) => Some ("", w, Some stat)
              end
          end
      end
  end.

(** What serving one request leaves: the state (with the reply in [rc]),
    the host calls made, and the value assigned to [rc.Stat], if any. *)
Definition Served : Type := option (World * list HostCall * option string).

(** The body of the loop of [fcallhandler] for one request [x],
    vufs.go:445-466, with the table [fcallhandlers] of [New],
    vufs.go:710-717.  [Reset] is [rc.Reset()], a method of a file that is
    not among the sources, and is a parameter, as are [MAX_MSIZE] and
    [Bytes]; [pending] is as for [rversion]. *)
Definition fcallhandler_step (MAX_MSIZE : Z) (H : Host) (Root : string)
    (Bytes : Dir -> string * option string) (Reset : Fcall -> Fcall)
    (pending : bool) (x : Fcall) (w : World) : Served :=
  let w := set_rc Reset w in
  let plain (r : Handled) : option (string * World * list HostCall * option string) :=
    match r with
    | Some (emsg, w) => Some (emsg, w, [], None)
    | None => None
    end in
  let handled :=
    if fcType x =? Tversion then plain (rversion MAX_MSIZE pending x w)
    else if fcType x =? Tattach then plain (rattach x w)
    else if fcType x =? Tauth then plain (rauth x w)
    else if fcType x =? Tstat then
      match rstat Bytes x w with
      | Some (emsg, w, stat) => Some (emsg, w, [], stat)
      | None => None
      end
    else if fcType x =? Tcreate then
      match rcreate H Root x w with
      | Some (emsg, w, calls) => Some (emsg, w, calls, None)
      | None => None
      end
    else if fcType x =? Twalk then plain (rwalk x w)
    else Some ("bad fcall type", w, [], None) in
  match handled with
  | Some (emsg, w, calls, stat) => Some (respond x emsg w, calls, stat)
  | None => None
  end.

(** Requests served one after the other, each finding the state the one
    before left; [pendings] tells, request by request, whether another
    request was waiting on the channel. *)
Fixpoint serve (MAX_MSIZE : Z) (H : Host) (Root : string)
    (Bytes : Dir -> string * option string) (Reset : Fcall -> Fcall)
    (xs : list (bool * Fcall)) (w : World) : option World :=
  match xs with
  | [] => Some w
  | (pending, x) :: xs =>
      match fcallhandler_step MAX_MSIZE H Root Bytes Reset pending x w with
      | Some (w, _, _) => serve MAX_MSIZE H Root Bytes Reset xs w
      | None => None
      end
  end.

(** ** Well-formed states *)

(** Every pointer of the tree leads somewhere: the parent of a node is a
    node, and an entry of a child map is a node whose parent is the node
    holding the map and whose name is the key of the entry. *)
Definition wf_files (fs : gmap loc File) : Prop :=
  forall l fo, fs !! l = Some fo ->
    is_Some (fs !! parent fo) /\
    forall n c, map_get (children fo) n = Some c ->
      exists co, fs !! c = Some co /\ parent co = l /\ Name (dir co) = n.

(** The tree is well formed, its root is a node, and every fid of the
    table is bound to a record over a node. *)
Definition wf_world (w : World) : Prop :=
  wf_files (files w) /\
  is_Some (files w !! root w) /\
  forall k p, fids w !! k = Some p ->
    exists fid, fidobjs w !! p = Some fid /\ is_Some (files w !! file fid).

(** What the tree walk keeps true of its state: the tree is well formed,
    [loadmap] points at nodes, every node belongs to [DEFAULT_USER] and
    has a child map, and the node loaded for [Root], if any, is its own
    parent, is named "/" and has mode 0777. *)
Definition loaded_ok (DEFAULT_USER Root : string) (s : Loading) : Prop :=
  wf_files (lfiles s) /\
  (forall path l, loadmap s !! path = Some l -> is_Some (lfiles s !! l)) /\
  (forall l fo, lfiles s !! l = Some fo ->
     Uid (dir fo) = DEFAULT_USER /\ Gid (dir fo) = DEFAULT_USER /\
     Muid (dir fo) = DEFAULT_USER /\ is_Some (children fo)) /\
  (forall l, loadmap s !! Root = Some l ->
     exists fo, lfiles s !! l = Some fo /\ parent fo = l /\
       Name (dir fo) = "/" /\ Mode (dir fo) = 0x1FF).

(** The state a server starts serving a connection in: the tree as built,
    no fid, [msize] as [connhandler] sets it (vufs.go:499-503). *)
Definition start_world (MAX_MSIZE : Z) (fs : gmap loc File) (r : loc) : World :=
  mkWorld fs ∅ r ∅ MAX_MSIZE zeroFcall.

(** ** More of the small server *)

(** What [Null()] leaves, for the examples: every field zero. *)
Definition ex_nullDir : Dir := mkDir 0 0 zeroQid 0 0 0 0 "" "" "" "".

(** The entries a walk of [/srv] yields: the directory itself and the
    file [x] in it. *)
Definition ex_entries : list (string * FileInfo) :=
  [("/srv", mkFileInfo "srv" 0 0x1ED (mkTime 1000 0) true (SysStat (mkStat_t 8 1000)));
   ("/srv/x", ex_info false)].

(** An encoder and a reset for the examples: the name of the node stands
    for its encoded record, and the reset clears the response. *)
Definition ex_Bytes (d : Dir) : string * option string := (Name d, None).
Definition ex_Reset (c : Fcall) : Fcall := zeroFcall.

(** ** Virtual users, vusers.go *)

(** [vUser{id, name, members, groups}]; the two lists hold pointers to
    other [vUser] objects. *)
Record vUser := mkvUser {
  vu_id : Z;
  vu_name : string;
  vu_members : list loc;
  vu_groups : list loc;
}.

(** [vUsers{nameToUser, idToUser}], with the heap its pointers lead
    into. *)
Record vUsers := mkvUsers {
  vusers : gmap loc vUser;
  nameToUser : gmap string loc;
  idToUser : gmap Z loc;
}.

(** Why a load returns an error: the number of columns of a line, or its
    first column.  (The texts [fmt.Errorf] makes of them are left out.) *)
Inductive LoadError :=
  | BadColumns (columns : nat) (idx : nat)
  | BadId (idx : nat).

(** [bytes.Split(s, sep)] for a separator of one byte. *)
Fixpoint split_byte (sep : ascii) (s : string) : list string :=
  match s with
  | EmptyString => [EmptyString]
  | String c s' =>
      if Ascii.eqb c sep then EmptyString :: split_byte sep s'
      else
        match split_byte sep s' with
        | h :: t => String c h :: t
        | [] => [String c EmptyString]
        end
  end.

(** The test both passes over the lines start with: an empty line and a
    line that begins with [#] are skipped. *)
Definition skipped (line : string) : bool :=
  match line with
  | EmptyString => true
  | String c _ => Ascii.eqb c "#"
  end.

(** The first loop of [NewVusers], vusers.go:157-184, from line [idx] on.
    [Atoi] is [strconv.Atoi], which yields nothing where it returns an
    error. *)
Fixpoint load_names (Atoi : string -> option Z) (lines : list string) (idx : nat)
    (us : gmap loc vUser) (n2u : gmap string loc)
    : LoadError + gmap loc vUser * gmap string loc :=
  match lines with
  | [] => inr (us, n2u)
  | line :: rest =>
      if skipped line then load_names Atoi rest (S idx) us n2u
      else
        let columns := split_byte ":" line in
        if negb (Nat.eqb (length columns) 3) then inl (BadColumns (length columns) idx)
        else
          match Atoi (nth 0 columns "") with
          | None => inl (BadId idx)
          | Some id =>
              let name := nth 1 columns "" in
              let p := alloc us in
              load_names Atoi rest (S idx)
                (<[p := mkvUser id name [] []]> us) (<[name := p]> n2u)
          end
  end.

(** The innermost loop, vusers.go:203-213: the groups of one line.
    [None] is the panic for a group name that is no user. *)
Fixpoint load_groups (n2u : gmap string loc) (user : loc) (groupNames : list string)
    (us : gmap loc vUser) : option (gmap loc vUser) :=
  match groupNames with
  | [] => Some us
  | groupName :: rest =>
      if Nat.eqb (String.length groupName) 0 then load_groups n2u user rest us
      else
        match n2u !! groupName with
        | None => None
        | Some group =>
            let us :=
              alter (fun u => mkvUser (vu_id u) (vu_name u) (vu_members u)
                                (vu_groups u ++ [group])) user us in
            let us :=
              alter (fun g => mkvUser (vu_id g) (vu_name g) (vu_members g ++ [user])
                                (vu_groups g)) group us in
            load_groups n2u user rest us
        end
  end.

(** The second loop, vusers.go:188-214.  [None] is a panic: a name or a
    group that is no user, or a line without a second or third column. *)
Fixpoint load_members (n2u : gmap string loc) (lines : list string)
    (us : gmap loc vUser) : option (gmap loc vUser) :=
  match lines with
  | [] => Some us
  | line :: rest =>
      if skipped line then load_members n2u rest us
      else
        let columns := split_byte ":" line in
        match columns !! 1%nat, columns !! 2%nat with
        | Some name, Some groups =>
            match n2u !! name with
            | None => None
            | Some user =>
                match load_groups n2u user (split_byte "," groups) us with
                | None => None
                | Some us => load_members n2u rest us
                end
            end
        | _, _ => None
        end
  end.

(** The third loop, vusers.go:217-220, over the users in the order [order]
    the map hands them out in (Go leaves that order open). *)
Fixpoint load_ids (us : gmap loc vUser) (order : list (string * loc))
    (i2u : gmap Z loc) : option (gmap Z loc) :=
  match order with
  | [] => Some i2u
  | (_, user) :: rest =>
      match us !! user with
      | None => None
      | Some u => load_ids us rest (<[vu_id u := user]> i2u)
      end
  end.

(** [NewVusers], vusers.go:145, from the contents [data] of the users file
    on; [range] is the order in which a map is ranged over. *)
Definition NewVusers (Atoi : string -> option Z)
    (range : gmap string loc -> list (string * loc)) (data : string)
    : option (LoadError + vUsers) :=
  let lines := split_byte "010" data in
  match load_names Atoi lines 0 ∅ ∅ with
  | inl err => Some (inl err)
  | inr (us, n2u) =>
      match load_members n2u lines us with
      | None => None
      | Some us =>
          match load_ids us (range n2u) ∅ with
          | None => None
          | Some i2u => Some (inr (mkvUsers us n2u i2u))
          end
      end
  end.

(** [IsMember], vusers.go:68, of the user at [u] in the group at [g]; the
    ids are read through the pointers, that of [g] not before there is a
    group to compare it with.  [None] is the panic of a nil pointer. *)
Definition IsMember (us : gmap loc vUser) (u g : loc) : option bool :=
  match us !! u with
  | Some uo =>
      (fix loop (groups : list loc) : option bool :=
         match groups with
         | [] => Some false
         | b :: rest =>
             match us !! b, us !! g with
             | Some bo, Some go =>
                 if vu_id bo =? vu_id go then Some true else loop rest
             | _, _ => None
             end
         end) (vu_groups uo)
  | None => None
  end.

(** [Uname2User], vusers.go:93, and [Uid2User], vusers.go:83: the
    pointer, or nothing for nil. *)
Definition Uname2User (up : vUsers) (uname : string) : option loc :=
  nameToUser up !! uname.
Definition Uid2User (up : vUsers) (uid : Z) : option loc :=
  idToUser up !! uid.

(** How often a pointer occurs in a list of pointers. *)
Definition occurrences (p : loc) (l : list loc) : nat :=
  length (filter (fun q => q = p) l).

(** What the second loop keeps true: every name leads to a user object of
    that name, every pointer in a list leads to a user object, and [g] is
    among the groups of [u] as often as [u] is among the members of [g]. *)
Definition users_ok (us : gmap loc vUser) (n2u : gmap string loc) : Prop :=
  (forall nm p, n2u !! nm = Some p -> exists u, us !! p = Some u /\ vu_name u = nm) /\
  (forall p u q, us !! p = Some u ->
     q ∈ vu_groups u ++ vu_members u -> is_Some (us !! q)) /\
  (forall p q u g, us !! p = Some u -> us !! q = Some g ->
     occurrences q (vu_groups u) = occurrences p (vu_members g)).

(** A users file for the examples, and the reading of decimal numbers of
    one digit that is enough for it. *)
Definition ex_users : string :=
  "# users" +:+ newline +:+
  "1:adm:" +:+ newline +:+
  "2:mark:adm,staff" +:+ newline +:+
  newline +:+
  "3:staff:" +:+ newline.
Definition ex_Atoi (s : string) : option Z :=
  match s with
  | String c EmptyString =>
      let n := Z.of_nat (nat_of_ascii c) - 48 in
      if (0 <=? n) && (n <=? 9) then Some n else None
  | _ => None
  end.
Definition ex_range (m : gmap string loc) : list (string * loc) := map_to_list m.

(** ** Host users, wwwusers.go *)

(** [osUsers{users, groups}]: two tables from ids to objects; [None] is
    the nil map. *)
Record osUsers := mkosUsers {
  os_users : option (gmap Z loc);
  os_groups : option (gmap Z loc);
}.

(** The globals of the file, [once] and [OsUsers] ([None] is nil), with
    the heaps of [osUser] and [osGroup] objects, each object being its id. *)
Record OsWorld := mkOsWorld {
  once : bool;
  OsUsers : option osUsers;
  osUserObjs : gmap loc Z;
  osGroupObjs : gmap loc Z;
}.

(** Reading a table: a nil map holds nothing. *)
Definition os_get (m : option (gmap Z loc)) (k : Z) : option loc :=
  match m with
  | Some m => m !! k
  | None => None
  end.

(** [once.Do(initOsusers)], wwwusers.go:47 and 54. *)
Definition once_Do_initOsusers (s : OsWorld) : OsWorld :=
  if once s then s
  else mkOsWorld true (Some (mkosUsers (Some ∅) (Some ∅)))
         (osUserObjs s) (osGroupObjs s).

(** [Uid2User], wwwusers.go:53; [None] is a panic, of reading through a
    nil [OsUsers] or of writing to a nil map. *)
Definition osUid2User (uid : Z) (s : OsWorld) : option (loc * OsWorld) :=
  let s := once_Do_initOsusers s in
  match OsUsers s with
  | None => None
  | Some t =>
      match os_get (os_users t) uid with
      | Some user => Some (user, s)
      | None =>
          let user := alloc (osUserObjs s) in
          match os_users t with
          | None => None
          | Some m =>
              Some (user,
                    mkOsWorld (once s)
                      (Some (mkosUsers (Some (<[uid := user]> m)) (os_groups t)))
                      (<[user := uid]> (osUserObjs s)) (osGroupObjs s))
          end
      end
  end.

(** [Gid2Group], wwwusers.go:73. *)
Definition osGid2Group (gid : Z) (s : OsWorld) : option (loc * OsWorld) :=
  let s := once_Do_initOsusers s in
  match OsUsers s with
  | None => None
  | Some t =>
      match os_get (os_groups t) gid with
      | Some group => Some (group, s)
      | None =>
          let group := alloc (osGroupObjs s) in
          match os_groups t with
          | None => None
          | Some m =>
              Some (group,
                    mkOsWorld (once s)
                      (Some (mkosUsers (os_users t) (Some (<[gid := group]> m))))
                      (osUserObjs s) (<[group := gid]> (osGroupObjs s)))
          end
      end
  end.

(** The tables agree with the objects: once [once] has run, [OsUsers] is
    not nil and neither are its maps, and an id leads to the object that
    is that id. *)
Definition os_ok (s : OsWorld) : Prop :=
  once s = true ->
  exists us gs,
    OsUsers s = Some (mkosUsers (Some us) (Some gs)) /\
    (forall uid p, us !! uid = Some p -> osUserObjs s !! p = Some uid) /\
    (forall gid p, gs !! gid = Some p -> osGroupObjs s !! p = Some gid).

(** The globals as the program starts. *)
Definition os_start : OsWorld := mkOsWorld false None ∅ ∅.

(** * Properties *)

(** ** Bit masks *)

Section Masks.
Implicit Types a b m p q : Z.

(** [p] lies within [m]. *)
Lemma land_subset_trans m p q :
  Z.land q p = q -> Z.land m p = p -> Z.land m q = q.
Proof.
  intros Hq Hp.
  rewrite <- Hq at 1.
  rewrite (Z.land_comm q p), Z.land_assoc, Hp, Z.land_comm.
  exact Hq.
Qed.

Lemma land_lor_keeps a b p : Z.land a p = p -> Z.land (Z.lor a b) p = p.
Proof.
  intros H. apply Z.bits_inj'. intros n Hn.
  apply (f_equal (fun z => Z.testbit z n)) in H.
  rewrite Z.land_spec in H. rewrite Z.land_spec, Z.lor_spec.
  destruct (Z.testbit a n), (Z.testbit b n), (Z.testbit p n); simpl in *; congruence.
Qed.

Lemma land_7_subset p q : Z.land q p = q -> Z.land (Z.land q 7) (Z.land p 7) = Z.land q 7.
Proof.
  intros H. apply Z.bits_inj'. intros n Hn.
  apply (f_equal (fun z => Z.testbit z n)) in H.
  rewrite Z.land_spec in H. rewrite !Z.land_spec.
  destruct (Z.testbit q n), (Z.testbit p n), (Z.testbit 7 n); simpl in *; congruence.
Qed.

(** A value masked with a mask whose bit 0 is clear is never 1; [QTDIR]
    is such a mask, as is every other high bit. *)
Lemma land_even_not_1 a q : Z.testbit q 0 = false -> (Z.land a q =? 1) = false.
Proof.
  intros Hq. apply Z.eqb_neq. intros H.
  apply (f_equal (fun z => Z.testbit z 0)) in H.
  rewrite Z.land_spec, Hq, andb_false_r in H. discriminate.
Qed.

Lemma land_QTDIR_not_1 a : (Z.land a QTDIR =? 1) = false.
Proof. by apply land_even_not_1. Qed.
End Masks.

(** ** Authorization *)

(** [CheckPerm] grants exactly when the uid is not empty and the request,
    cut to its low three bits, lies within the effective mask. *)
Lemma CheckPerm_effective_mask f uid perm :
  CheckPerm f uid perm =
  negb (String.eqb uid "") &&
  (Z.land (effective_mask f uid) (Z.land perm 7) =? Z.land perm 7).
Proof.
  unfold CheckPerm, effective_mask.
  destruct (String.eqb uid ""); simpl; [reflexivity|].
  destruct (Z.land (Z.land (Mode f) 7) (Z.land perm 7) =? Z.land perm 7) eqn:Hother.
  - apply Z.eqb_eq in Hother. symmetry.
    destruct (String.eqb (Uid f) uid); apply Z.eqb_eq; [|exact Hother].
    by apply land_lor_keeps.
  - destruct (String.eqb (Uid f) uid).
    + match goal with |- (if ?b then _ else _) = _ => destruct b end; reflexivity.
    + by rewrite Hother.
Qed.

Lemma CheckPerm_empty_uid f perm : CheckPerm f "" perm = false.
Proof. reflexivity. Qed.

(** Where the acting user is in no group that owns the node, the source
    and the reference algorithm agree on every request within the low
    three bits. *)
Lemma CheckPerm_agrees_without_group is_member f uid want :
  is_member uid (Gid f) = false ->
  Z.land want 7 = want ->
  CheckPerm f uid want = check_perm_spec is_member f uid want.
Proof.
  intros Hm Hw. rewrite CheckPerm_effective_mask.
  unfold check_perm_spec, effective_mask. rewrite Hm, Hw.
  destruct (String.eqb uid ""); simpl; reflexivity.
Qed.

(** C1.  [CheckPerm] does not implement the reference algorithm of
    section 4.E: the group step is missing.  For a node of mode 0070 that
    belongs to alice and to group staff, and for bob, a member of staff
    who asks to read, the reference algorithm grants and [CheckPerm]
    denies. *)
Theorem CheckPerm_misses_group_step :
  let node := mkDir 0 0 (mkQid 3 0 QTFILE) 0x38 0 0 0 "x" "alice" "staff" "alice" in
  ex_is_member "bob" (Gid node) = true /\
  check_perm_spec ex_is_member node "bob" DMREAD = true /\
  CheckPerm node "bob" DMREAD = false.
Proof. repeat split. Qed.

(** C8.  [CheckPerm] is monotone in the permission asked for: what is
    granted for a mask [p] is granted for every mask [p'] within [p]. *)
Theorem CheckPerm_monotone f uid p p' :
  Z.land p' p = p' ->
  CheckPerm f uid p = true ->
  CheckPerm f uid p' = true.
Proof.
  intros Hsub. rewrite !CheckPerm_effective_mask.
  intros [Hu Hp]%andb_prop. rewrite Hu. simpl.
  apply Z.eqb_eq in Hp. apply Z.eqb_eq.
  eapply land_subset_trans; [|exact Hp].
  by apply land_7_subset.
Qed.

(** Granting read and write to the owner of a 0600 file implies granting
    read. *)
Lemma CheckPerm_monotone_witness :
  let f := mkDir 0 0 (mkQid 3 0 QTFILE) 0x180 0 0 0 "x" "alice" "staff" "alice" in
  Z.land DMREAD (Z.lor DMREAD DMWRITE) = DMREAD /\
  CheckPerm f "alice" (Z.lor DMREAD DMWRITE) = true /\
  CheckPerm f "alice" DMREAD = true.
Proof.
  intros f.
  split; [reflexivity|]. split; [reflexivity|].
  apply (CheckPerm_monotone f "alice" (Z.lor DMREAD DMWRITE) DMREAD); reflexivity.
Defined.

(** ** Heaps *)

Lemma alloc_fresh {A} (h : gmap loc A) : h !! alloc h = None.
Proof. apply not_elem_of_dom. unfold alloc. apply is_fresh. Qed.

(** ** Version negotiation *)

Section Version.
Implicit Types s v : string.

(** Where [index_dot] finds a dot, the string splits there, and the
    slice up to the index is the part in front of the dot. *)
Lemma index_dot_split s :
  0 <= index_dot s ->
  exists b, s = slice_to s (index_dot s) +:+ String "."%char b.
Proof.
  unfold slice_to. induction s as [|c s IH]; simpl.
  - lia.
  - destruct (Ascii.eqb c ".") eqn:Hc.
    + apply Ascii.eqb_eq in Hc. subst c. intros _. by exists s.
    + destruct (index_dot s <? 0) eqn:Hneg; [lia|].
      apply Z.ltb_ge in Hneg. intros _.
      destruct (IH Hneg) as [b Hb]. exists b.
      replace (Z.to_nat (index_dot s + 1)) with (S (Z.to_nat (index_dot s))) by lia.
      simpl. rewrite Hb at 1. reflexivity.
Qed.

Lemma negotiate_cases v : negotiate v = "9P2000" \/ negotiate v = "unknown".
Proof.
  unfold negotiate.
  destruct (0 <? index_dot v);
    match goal with |- context [String.eqb ?a ?b] =>
      destruct (String.eqb a b) eqn:E end; simpl; auto;
    apply String.eqb_eq in E; auto.
Qed.

Lemma negotiate_accepted v : accepted v -> negotiate v = "9P2000".
Proof. intros [->|[s ->]]; reflexivity. Qed.

Lemma negotiate_sound v : negotiate v = "9P2000" -> accepted v.
Proof.
  unfold negotiate, accepted.
  destruct (0 <? index_dot v) eqn:Hi.
  - apply Z.ltb_lt in Hi.
    destruct (String.eqb (slice_to v (index_dot v)) VERSION9P) eqn:E;
      simpl; [|discriminate].
    apply String.eqb_eq in E. intros _.
    destruct (index_dot_split v) as [b Hb]; [lia|].
    right. exists b. rewrite Hb at 1. by rewrite E.
  - destruct (String.eqb v VERSION9P) eqn:E; simpl; [|discriminate].
    apply String.eqb_eq in E. by left.
Qed.

Lemma negotiate_unknown v : ~ accepted v -> negotiate v = "unknown".
Proof.
  intros Hna. destruct (negotiate_cases v) as [H|H]; [|exact H].
  by apply negotiate_sound in H.
Qed.
End Version.

(** C5, as the source has it.  A Tversion that finds no request waiting
    on the request channel, or whose version string is not accepted, is
    answered with Rversion; the version replied is "9P2000" exactly for the
    strings that are "9P2000" or begin with "9P2000." and "unknown" for
    every other string; the msize replied, and kept for the connection, is
    the smaller of the msize asked for and the server maximum. *)
Theorem rversion_negotiates MAX_MSIZE pending fc w :
  pending = false \/ ~ accepted (fcVersion fc) ->
  exists w',
    rversion MAX_MSIZE pending fc w = Some ("", w') /\
    fcType (rc w') = Rversion /\
    fcMsize (rc w') = Z.min (fcMsize fc) MAX_MSIZE /\
    msize w' = Z.min (fcMsize fc) MAX_MSIZE /\
    (fcVersion (rc w') = "9P2000" <-> accepted (fcVersion fc)) /\
    (fcVersion (rc w') = "9P2000" \/ fcVersion (rc w') = "unknown").
Proof.
  intros Hp. unfold rversion.
  assert (negb (String.eqb (negotiate (fcVersion fc)) "unknown") && pending = false)
    as ->.
  { destruct Hp as [->|Hna]; [apply andb_false_r|].
    by rewrite (negotiate_unknown _ Hna). }
  eexists. split; [reflexivity|]. simpl.
  assert ((if MAX_MSIZE <? fcMsize fc then MAX_MSIZE else fcMsize fc)
          = Z.min (fcMsize fc) MAX_MSIZE) as ->.
  { destruct (Z.ltb_spec MAX_MSIZE (fcMsize fc)); lia. }
  repeat split.
  - apply negotiate_sound.
  - apply negotiate_accepted.
  - apply negotiate_cases.
Qed.

(** The first scenario of the specification: "9P2000.L" with msize 8192
    negotiates to "9P2000" with msize 8192. *)
Lemma rversion_negotiates_witness :
  (false = false \/ ~ accepted "9P2000.L") /\
  exists w',
    rversion 8216 false (Tversion_msg 8192 "9P2000.L") ex_world = Some ("", w') /\
    fcMsize (rc w') = 8192 /\ fcVersion (rc w') = "9P2000".
Proof.
  split; [by left|].
  destruct (rversion_negotiates 8216 false (Tversion_msg 8192 "9P2000.L") ex_world)
    as (w' & Hr & _ & Hm & _ & [_ Hv] & _); [by left|].
  exists w'. split; [exact Hr|]. split; [exact Hm|].
  apply Hv. right. by exists "L".
Defined.

(** C5, as the claim words it, fails: "9P2000u" has the prefix "9P2000",
    and the server answers it with "unknown". *)
Lemma rversion_prefix_not_accepted :
  String.prefix "9P2000" "9P2000u" = true /\
  exists w',
    rversion 8216 false (Tversion_msg 8192 "9P2000u") ex_world = Some ("", w') /\
    fcVersion (rc w') = "unknown".
Proof. split; [reflexivity|]. eexists. split; reflexivity. Qed.

(** ** Attach *)

(** C10.  An attach to "/" without an afid on an unused fid succeeds
    whatever the uname is, the empty string included: no user table is
    looked at.  It installs, under the fid, a fresh record at the root that
    carries the uname as uid and is not open, and answers with the qid of
    the root.  And a fid whose uid is the empty string is denied by
    [CheckPerm] on every node and for every permission. *)
Theorem rattach_any_uname fc w r :
  fcAname fc = "/" ->
  fcAfid fc = NOFID ->
  fids w !! fcFid fc = None ->
  files w !! root w = Some r ->
  (exists p w',
     rattach fc w = Some ("", w') /\
     fidobjs w !! p = None /\
     fids w' = <[fcFid fc := p]> (fids w) /\
     fidobjs w' = <[p := mkFid (root w) (fcUname fc) false]> (fidobjs w) /\
     fid_load (fcFid fc) w' = Some (mkFid (root w) (fcUname fc) false) /\
     files w' = files w /\
     fcQid (rc w') = DQid (dir r)) /\
  (forall node perm, CheckPerm node "" perm = false).
Proof.
  intros Haname Hafid Hfree Hroot. split; [|reflexivity].
  exists (alloc (fidobjs w)). eexists.
  unfold rattach. rewrite Haname, Hafid, Hfree. simpl. rewrite Hroot.
  split; [reflexivity|]. simpl.
  split; [apply alloc_fresh|].
  repeat split.
  unfold fid_load. simpl. by rewrite !lookup_insert_eq.
Qed.

(** An attach with an empty uname on the example server. *)
Lemma rattach_any_uname_witness :
  fids ex_world !! 5 = None /\
  exists p w',
    rattach (Tattach_msg 5 NOFID "" "/") ex_world = Some ("", w') /\
    fids w' !! 5 = Some p /\
    fid_load 5 w' = Some (mkFid 0%nat "" false).
Proof.
  split; [reflexivity|].
  destruct (rattach_any_uname (Tattach_msg 5 NOFID "" "/") ex_world ex_root)
    as [(p & w' & Hr & _ & Hf & _ & Hl & _) _]; try reflexivity.
  exists p, w'. split; [exact Hr|]. split; [|exact Hl].
  rewrite Hf. apply lookup_insert_eq.
Defined.

(** ** Walk *)

Section Walk.
Variable fs : gmap loc File.
Variable uid : string.

(** The guard in front of the permission check never fires: a value
    masked with [QTDIR] is never 1. *)
Lemma walk_denied_never fo : walk_denied fo uid = false.
Proof. unfold walk_denied. by rewrite land_QTDIR_not_1. Qed.

(** Names that all resolve take the loop to its end. *)
Lemma walk_loop_all f names g qids :
  walks fs uid f names g qids ->
  forall i acc, walk_loop fs uid f i names acc = Some (WalkAll g (acc ++ qids)).
Proof.
  induction 1 as [f|f wn f' fo' ws g qids Hres Hf' _ IH]; intros i acc.
  - simpl. by rewrite app_nil_r.
  - destruct Hres as (fo & Hf & [[-> ->]|(Hne & Hch & fo'' & Hf'' & Hok)]); simpl.
    + rewrite Hf. simpl. rewrite Hf'. rewrite IH. by rewrite <- app_assoc.
    + rewrite Hf. apply String.eqb_neq in Hne. rewrite Hne, Hch, Hf'.
      rewrite Hf' in Hf''. injection Hf'' as <-. rewrite Hok.
      rewrite IH. by rewrite <- app_assoc.
Qed.

(** A name that fails at the first step is an error. *)
Lemma walk_loop_first_fails f wn post acc :
  fails_at fs uid f wn ->
  exists emsg, emsg <> "" /\
    walk_loop fs uid f 0 (wn :: post) acc = Some (WalkError emsg).
Proof.
  intros (fo & Hf & Hne & Hfail). simpl.
  rewrite Hf. apply String.eqb_neq in Hne. rewrite Hne.
  destruct Hfail as [Hch|(f' & fo' & Hch & Hf' & Hden)]; rewrite Hch.
  - eexists. split; [|reflexivity]. discriminate.
  - rewrite Hf', Hden. eexists. split; [|reflexivity]. discriminate.
Qed.

(** A name that fails at a later step ends the loop with the qids
    gathered so far. *)
Lemma walk_loop_step_fails f wn post i acc :
  fails_at fs uid f wn ->
  i <> 0%nat ->
  walk_loop fs uid f i (wn :: post) acc = Some (WalkShort acc).
Proof.
  intros (fo & Hf & Hne & Hfail) Hi. simpl.
  rewrite Hf. apply String.eqb_neq in Hne. rewrite Hne.
  apply Nat.eqb_neq in Hi.
  destruct Hfail as [Hch|(f' & fo' & Hch & Hf' & Hden)]; rewrite Hch.
  - by rewrite Hi.
  - by rewrite Hf', Hden, Hi.
Qed.

Lemma walk_loop_later_fails f pre g qids wn post :
  walks fs uid f pre g qids ->
  fails_at fs uid g wn ->
  forall i acc, (i + length pre)%nat <> 0%nat ->
    walk_loop fs uid f i (pre ++ wn :: post) acc = Some (WalkShort (acc ++ qids)).
Proof.
  intros Hw Hfail.
  induction Hw as [f|f wn' f' fo' ws g qids Hres Hf' _ IH]; intros i acc Hi.
  - simpl in Hi. rewrite app_nil_r. apply walk_loop_step_fails; [done|lia].
  - specialize (IH Hfail).
    destruct Hres as (fo & Hf & [[-> ->]|(Hne & Hch & fo'' & Hf'' & Hok)]); simpl.
    + rewrite Hf. simpl. rewrite Hf'. rewrite IH by lia. by rewrite <- app_assoc.
    + rewrite Hf. apply String.eqb_neq in Hne. rewrite Hne, Hch, Hf'.
      rewrite Hf' in Hf''. injection Hf'' as <-. rewrite Hok.
      rewrite IH by lia. by rewrite <- app_assoc.
Qed.

(** Walking starts from a node that exists. *)
Lemma walks_start f wn ws g qids :
  walks fs uid f (wn :: ws) g qids -> is_Some (fs !! f).
Proof. inversion 1 as [|? ? ? ? ? ? ? (fo & Hf & _)]; subst. by exists fo. Qed.

Lemma fails_at_start f wn : fails_at fs uid f wn -> is_Some (fs !! f).
Proof. intros (fo & Hf & _). by exists fo. Qed.

(** A name that is found by a user who may enter resolves in the loop, and
    a name that is not found fails in it. *)
Lemma enters_resolves f wn f' : enters fs uid f wn f' -> resolves fs uid f wn f'.
Proof.
  intros (fo & Hf & [[-> ->]|(Hne & Hch & fo' & Hf' & _)]); exists fo;
    (split; [exact Hf|]).
  - by left.
  - right. split; [exact Hne|]. split; [exact Hch|].
    exists fo'. split; [exact Hf'|]. apply walk_denied_never.
Qed.

Lemma not_found_fails_at f wn : not_found fs f wn -> fails_at fs uid f wn.
Proof.
  intros (fo & Hf & Hne & Hch). exists fo. split; [exact Hf|].
  split; [exact Hne|]. by left.
Qed.

Lemma enters_all_walks f names g qids :
  enters_all fs uid f names g qids -> walks fs uid f names g qids.
Proof.
  induction 1 as [f|f wn f' fo' ws g qids He Hf' _ IH]; [constructor|].
  apply (walks_cons _ _ f wn f' fo'); [by apply enters_resolves|done|done].
Qed.

Lemma enters_all_length f names g qids :
  enters_all fs uid f names g qids -> length qids = length names.
Proof. induction 1; simpl; congruence. Qed.
End Walk.

(** With the guards of [rwalk] passed and at least one name to walk, the
    handler is its loop. *)
Lemma rwalk_loop tx w p fid :
  fids w !! fcFid tx = Some p ->
  fidobjs w !! p = Some fid ->
  open fid = false ->
  fids w !! fcNewfid tx = None ->
  fcWname tx <> [] ->
  is_Some (files w !! file fid) ->
  rwalk tx w =
  match walk_loop (files w) (uid fid) (file fid) 0 (fcWname tx) (fcWqid (rc w)) with
  | None => None
  | Some (WalkError emsg) => Some (emsg, w)
  | Some (WalkShort wqid) => Some ("", set_rc (rc_Wqid wqid) w)
  | Some (WalkAll f wqid) =>
      let w := set_rc (rc_Wqid wqid) w in
      let q := alloc (fidobjs w) in
      let w := set_fidobjs <[q := mkFid f (uid fid) false]> w in
      Some ("", set_fids <[fcNewfid tx := q]> w)
  end.
Proof.
  intros Hfid Hp Hopen Hnew Hnames [fo Hfo]. unfold rwalk.
  rewrite Hfid, Hp.
  destruct (fcWname tx) as [|wn ws] eqn:Hw; [done|]. simpl length. simpl Nat.eqb.
  simpl negb. cbv iota. rewrite Hfo, land_QTDIR_not_1, Hopen, Hnew. reflexivity.
Qed.

(** With no name to walk, [rwalk] binds newfid to the record of fid,
    whatever newfid was bound to before. *)
Lemma rwalk_zero_names tx w p fid :
  fids w !! fcFid tx = Some p ->
  fidobjs w !! p = Some fid ->
  open fid = false ->
  fcWname tx = [] ->
  rwalk tx w = Some ("", set_fids <[fcNewfid tx := p]> w).
Proof.
  intros Hfid Hp Hopen Hw. unfold rwalk. by rewrite Hfid, Hp, Hw, Hopen.
Qed.

Lemma respond_error x emsg w :
  emsg <> "" -> fcType (rc (respond x emsg w)) = Rerror.
Proof.
  intros H. apply String.eqb_neq in H. unfold respond. by rewrite H.
Qed.

Lemma respond_success x w : fcType (rc (respond x "" w)) = fcType x + 1.
Proof. reflexivity. Qed.

(** C6, as amended.  A Twalk with at least one name, from a fid that
    exists and is not open to a newfid that is not in use; a name is found
    through [".."] or the child map, by a user who holds X permission on
    every directory entered.  (1) If the first name is not found, the
    handler returns an error and leaves the state as it was, and the reply
    is Rerror.  (2) If the names before a later name are found and that
    one is not, the handler succeeds, the reply gains exactly the qids of
    the names walked, and the fid table is unchanged, so newfid stays
    unbound.  (3) If every name is found, newfid is bound to a fresh record
    over the final node that carries the uid of fid and is not open, and
    the reply gains the qids of all the names.  What the handler does for
    a user without X permission is not part of this statement. *)
Theorem rwalk_partial_walk tx w p fid :
  fids w !! fcFid tx = Some p ->
  fidobjs w !! p = Some fid ->
  open fid = false ->
  fids w !! fcNewfid tx = None ->
  (forall wn ws,
     fcWname tx = wn :: ws ->
     not_found (files w) (file fid) wn ->
     exists emsg,
       emsg <> "" /\ rwalk tx w = Some (emsg, w) /\
       fcType (rc (respond tx emsg w)) = Rerror) /\
  (forall pre wn post g qids,
     fcWname tx = pre ++ wn :: post ->
     pre <> [] ->
     enters_all (files w) (uid fid) (file fid) pre g qids ->
     not_found (files w) g wn ->
     exists w',
       rwalk tx w = Some ("", w') /\
       fcWqid (rc w') = fcWqid (rc w) ++ qids /\
       length qids = length pre /\
       fids w' = fids w /\
       fids w' !! fcNewfid tx = None /\
       fidobjs w' = fidobjs w /\
       fcType (rc (respond tx "" w')) = fcType tx + 1) /\
  (forall g qids,
     fcWname tx <> [] ->
     enters_all (files w) (uid fid) (file fid) (fcWname tx) g qids ->
     exists q w',
       rwalk tx w = Some ("", w') /\
       fcWqid (rc w') = fcWqid (rc w) ++ qids /\
       length qids = length (fcWname tx) /\
       fidobjs w !! q = None /\
       fids w' = <[fcNewfid tx := q]> (fids w) /\
       fidobjs w' = <[q := mkFid g (uid fid) false]> (fidobjs w) /\
       fid_load (fcNewfid tx) w' = Some (mkFid g (uid fid) false) /\
       fcType (rc (respond tx "" w')) = fcType tx + 1).
Proof.
  intros Hfid Hp Hopen Hnew. split; [|split].
  - (* the first name is not found *)
    intros wn ws Hw Hmiss.
    pose proof (not_found_fails_at (files w) (uid fid) _ _ Hmiss) as Hfail.
    destruct (walk_loop_first_fails _ _ _ _ ws (fcWqid (rc w)) Hfail)
      as (emsg & Hne & Hloop).
    exists emsg. split; [exact Hne|]. split; [|by apply respond_error].
    rewrite (rwalk_loop tx w p fid); try done.
    + by rewrite Hw, Hloop.
    + by rewrite Hw.
    + by eapply fails_at_start.
  - (* a later name is not found *)
    intros pre wn post g qids Hw Hpre Hall Hmiss.
    pose proof (enters_all_walks _ _ _ _ _ _ Hall) as Hwalk.
    pose proof (not_found_fails_at (files w) (uid fid) _ _ Hmiss) as Hfail.
    eexists. split.
    + rewrite (rwalk_loop tx w p fid); try done.
      * rewrite Hw.
        rewrite (walk_loop_later_fails _ _ _ pre g qids wn post Hwalk Hfail).
        -- reflexivity.
        -- destruct pre; [done|simpl; lia].
      * rewrite Hw. by destruct pre.
      * destruct pre as [|wn' pre']; [done|]. by eapply walks_start.
    + simpl. split; [done|]. split; [by eapply enters_all_length|].
      by repeat split.
  - (* every name is found *)
    intros g qids Hnames Hall.
    pose proof (enters_all_walks _ _ _ _ _ _ Hall) as Hwalk.
    exists (alloc (fidobjs w)). eexists. split.
    + rewrite (rwalk_loop tx w p fid); try done.
      * rewrite (walk_loop_all _ _ _ _ g qids Hwalk). reflexivity.
      * destruct (fcWname tx) as [|wn ws]; [done|]. by eapply walks_start.
    + simpl. split; [done|]. split; [by eapply enters_all_length|].
      split; [apply alloc_fresh|]. split; [done|]. split; [done|].
      split; [|done]. unfold fid_load. simpl. by rewrite !lookup_insert_eq.
Qed.

(** The three cases on the example server, walked from the root by alice,
    who owns [d]: "nope" is not found at once; "d", "nope" stops after
    "d"; "d", "x" arrives. *)
Lemma rwalk_partial_walk_witness :
  (fid_load 1 ex_world_alice = Some (mkFid 0%nat "alice" false) /\
   fids ex_world_alice !! 3 = None /\
   CheckPerm (dir ex_d) "alice" DMEXEC = true) /\
  (exists emsg, emsg <> "" /\
     rwalk (Twalk_msg 1 3 ["nope"]) ex_world_alice = Some (emsg, ex_world_alice)) /\
  (exists w', rwalk (Twalk_msg 1 3 ["d"; "nope"]) ex_world_alice = Some ("", w') /\
     fcWqid (rc w') = [DQid (dir ex_d)] /\ fids w' !! 3 = None) /\
  (exists w', rwalk (Twalk_msg 1 3 ["d"; "x"]) ex_world_alice = Some ("", w') /\
     fcWqid (rc w') = [DQid (dir ex_d); DQid (dir ex_x)] /\
     fid_load 3 w' = Some (mkFid 2%nat "alice" false)).
Proof.
  assert (Hd : enters_all ex_files "alice" 0%nat ["d"] 1%nat [DQid (dir ex_d)]).
  { apply (enters_cons _ _ 0%nat "d" 1%nat ex_d); [|reflexivity|constructor].
    exists ex_root. split; [reflexivity|]. right.
    split; [discriminate|]. split; [reflexivity|].
    exists ex_d. split; reflexivity. }
  split; [repeat split; reflexivity|]. split; [|split].
  - destruct (rwalk_partial_walk (Twalk_msg 1 3 ["nope"]) ex_world_alice 0%nat
                (mkFid 0%nat "alice" false)) as (H1 & _); try reflexivity.
    destruct (H1 "nope" []) as (emsg & Hne & Hr & _); [reflexivity| |by exists emsg].
    exists ex_root. split; [reflexivity|]. split; [discriminate|reflexivity].
  - destruct (rwalk_partial_walk (Twalk_msg 1 3 ["d"; "nope"]) ex_world_alice 0%nat
                (mkFid 0%nat "alice" false)) as (_ & H2 & _); try reflexivity.
    destruct (H2 ["d"] "nope" [] 1%nat [DQid (dir ex_d)])
      as (w' & Hr & Hq & _ & _ & Hn & _); [reflexivity|discriminate|exact Hd| |].
    + exists ex_d. split; [reflexivity|]. split; [discriminate|reflexivity].
    + by exists w'.
  - destruct (rwalk_partial_walk (Twalk_msg 1 3 ["d"; "x"]) ex_world_alice 0%nat
                (mkFid 0%nat "alice" false)) as (_ & _ & H3); try reflexivity.
    destruct (H3 2%nat [DQid (dir ex_d); DQid (dir ex_x)])
      as (q & w' & Hr & Hq & _ & _ & _ & _ & Hl & _); [discriminate| |by exists w'].
    apply (enters_cons _ _ 0%nat "d" 1%nat ex_d); [|reflexivity|].
    + exists ex_root. split; [reflexivity|]. right.
      split; [discriminate|]. split; [reflexivity|].
      exists ex_d. split; reflexivity.
    + apply (enters_cons _ _ 1%nat "x" 2%nat ex_x); [|reflexivity|constructor].
      exists ex_d. split; [reflexivity|]. right.
      split; [discriminate|]. split; [reflexivity|].
      exists ex_x. split; [reflexivity|]. intros Hdir. discriminate Hdir.
Defined.

(** C6, as the claim puts it, does not hold for every Twalk: where newfid
    is in use, newfid = fid included, a walk all of whose names are found
    is refused.  Alice, who owns [d] and may enter it, walks from the root
    to [d] with newfid = fid = 1: the handler answers "already in use",
    the reply is Rerror, the state is as it was, and fid 1 is still on the
    root, not on [d]. *)
Lemma rwalk_all_found_newfid_in_use :
  fid_load 1 ex_world_alice = Some (mkFid 0%nat "alice" false) /\
  enters_all ex_files "alice" 0%nat ["d"] 1%nat [DQid (dir ex_d)] /\
  rwalk (Twalk_msg 1 1 ["d"]) ex_world_alice =
    Some ("already in use", ex_world_alice) /\
  fcType (rc (respond (Twalk_msg 1 1 ["d"]) "already in use" ex_world_alice))
    = Rerror /\
  (forall u b, fid_load 1 ex_world_alice <> Some (mkFid 1%nat u b)).
Proof.
  split; [reflexivity|]. split; [|split; [reflexivity|split; [reflexivity|]]].
  - apply (enters_cons _ _ 0%nat "d" 1%nat ex_d); [|reflexivity|constructor].
    exists ex_root. split; [reflexivity|]. right.
    split; [discriminate|]. split; [reflexivity|].
    exists ex_d. split; reflexivity.
  - intros u b. vm_compute. discriminate.
Qed.

(** C2.  The walk does not ask for X permission: bob, who has no X
    permission on the directory [d] (mode 0700, owner alice), walks into
    it from the root; the handler succeeds, the reply is Rwalk with the
    qid of [d], and newfid is bound to a fid of bob over [d]. *)
Theorem rwalk_enters_closed_directory :
  Z.land (Mode (dir ex_d)) 0x1FF = 0x1C0 /\
  Uid (dir ex_d) = "alice" /\
  has_DIR_bit (DQid (dir ex_d)) = true /\
  CheckPerm (dir ex_d) "bob" DMEXEC = false /\
  fid_load 1 ex_world = Some (mkFid 0%nat "bob" false) /\
  exists w',
    rwalk (Twalk_msg 1 3 ["d"]) ex_world = Some ("", w') /\
    fcType (rc (respond (Twalk_msg 1 3 ["d"]) "" w')) = Twalk + 1 /\
    fcWqid (rc w') = [DQid (dir ex_d)] /\
    fid_load 3 w' = Some (mkFid 1%nat "bob" false).
Proof.
  repeat split. eexists. split; [vm_compute; reflexivity|].
  repeat split.
Qed.

(** C7.  The walk with no names does not look at newfid: with fid 2
    already bound (to mark's record), a Twalk from fid 1 to newfid 2
    succeeds and rebinds fid 2 to bob's record.  And a walk with a name
    and newfid = fid is refused as "already in use". *)
Theorem rwalk_newfid_in_use :
  fid_load 1 ex_world = Some (mkFid 0%nat "bob" false) /\
  fid_load 2 ex_world = Some (mkFid 0%nat "mark" false) /\
  (exists w',
     rwalk (Twalk_msg 1 2 []) ex_world = Some ("", w') /\
     fids w' <> fids ex_world /\
     fid_load 2 w' = Some (mkFid 0%nat "bob" false)) /\
  rwalk (Twalk_msg 1 1 ["d"]) ex_world = Some ("already in use", ex_world).
Proof.
  split; [reflexivity|]. split; [reflexivity|]. split; [|reflexivity].
  eexists. split; [reflexivity|]. split; [|reflexivity].
  intros H. apply (f_equal (fun m => m !! 2)) in H. vm_compute in H. discriminate.
Qed.

Lemma append_nonempty a b : b <> "" -> a +:+ b <> "".
Proof. destruct a; [done|discriminate]. Qed.

(** What [rcreate] returns tells what it did: an error leaves the state as
    it was; a success has passed every guard, made the host calls of a
    creation, and left the state written out here. *)
Lemma rcreate_inv H Root fc w emsg w' calls :
  rcreate H Root fc w = Some (emsg, w', calls) ->
  (emsg <> "" /\ w' = w) \/
  (emsg = "" /\
   exists p fid pf ch info stat,
     fids w !! fcFid fc = Some p /\
     fidobjs w !! p = Some fid /\
     files w !! file fid = Some pf /\
     children pf = Some ch /\
     has_DIR_bit (DQid (dir pf)) = true /\
     fcName fc <> "." /\ fcName fc <> ".." /\
     CheckPerm (dir pf) (uid fid) DMWRITE = true /\
     ch !! fcName fc = None /\
     Stat_res H (Join H [Root; Name (dir pf); fcName fc]) = inr info /\
     info2stat info = inr stat /\
     let ospath := Join H [Root; Name (dir pf); fcName fc] in
     let f := alloc (files w) in
     let qid := mkQid (Ino stat) 0 ((fcPerm fc ≫ 24) `mod` 2 ^ 8) in
     let now := Now H `mod` 2 ^ 32 in
     let fo := mkFile (mkDir 0 0 qid (fcPerm fc) now now 0 (fcName fc)
                         (uid fid) (Gid (dir pf)) (uid fid))
                 (file fid) None in
     let pf' := mkFile (dir pf) (parent pf) (Some (<[fcName fc := f]> ch)) in
     let q := alloc (fidobjs w) in
     w' = set_rc (fun c => rc_Qid qid (rc_Type Rcreate c))
            (set_fids <[fcFid fc := q]>
               (set_fidobjs <[q := mkFid f (uid fid) true]>
                  (set_files (fun fs => <[file fid := pf']> (<[f := fo]> fs)) w))) /\
     calls =
       [OpenFile ospath (Z.lor (openflags (fcMode fc) (fcPerm fc)) O_CREATE)
          (Z.land (fcPerm fc) 0x1FF);
        OpenFile (ospath +:+ ".vufs") (Z.lor (Z.lor O_TRUNC O_WRONLY) O_CREATE) 0x180;
        WriteString (ospath +:+ ".vufs")
          (uid fid +:+ ":" +:+ Gid (dir pf) +:+ newline);
        Close (ospath +:+ ".vufs");
        Stat ospath]).
Proof.
  unfold rcreate, remove_after_failure, writeOwnership. intros Hr.
  repeat case_match; simplify_eq.
  all: try (left; split; [|done]; first [discriminate | by apply append_nonempty]).
  right. split; [done|].
  repeat match goal with
         | Hb : (_ || _) = false |- _ => apply orb_false_iff in Hb as [? ?]
         | Hb : negb _ = false |- _ => apply negb_false_iff in Hb
         | Hb : String.eqb _ _ = false |- _ => apply String.eqb_neq in Hb
         | Hb : bool_decide _ = false |- _ => apply bool_decide_eq_false in Hb
         end.
  eexists _, _, _, _, _, _. repeat (split; [done|]).
  split; [unfold has_DIR_bit; by apply negb_true_iff|].
  repeat (split; [done|]).
  split; [|done].
  match goal with Hn : ¬ is_Some _ |- _ =>
    simpl in Hn; by apply eq_None_not_Some end.
Qed.

(** Fid records are written once: a handler that makes a record puts it
    at a fresh address, and none writes to a record that exists. *)
Lemma rattach_keeps_records fc w emsg w' p fid :
  rattach fc w = Some (emsg, w') ->
  fidobjs w !! p = Some fid ->
  fidobjs w' !! p = Some fid.
Proof.
  unfold rattach. intros Hr Hp.
  repeat case_match; simplify_eq; simpl; try done.
  rewrite lookup_insert_ne; [done|]. intros <-. by rewrite alloc_fresh in Hp.
Qed.

Lemma rwalk_keeps_records tx w emsg w' p fid :
  rwalk tx w = Some (emsg, w') ->
  fidobjs w !! p = Some fid ->
  fidobjs w' !! p = Some fid.
Proof.
  unfold rwalk. intros Hr Hp.
  repeat case_match; simplify_eq; simpl; try done.
  rewrite lookup_insert_ne; [done|]. intros <-. by rewrite alloc_fresh in Hp.
Qed.

Lemma rcreate_keeps_records H Root fc w emsg w' calls p fid :
  rcreate H Root fc w = Some (emsg, w', calls) ->
  fidobjs w !! p = Some fid ->
  fidobjs w' !! p = Some fid.
Proof.
  unfold rcreate, remove_after_failure. intros Hr Hp.
  repeat case_match; simplify_eq; simpl; try done.
  rewrite lookup_insert_ne; [done|]. intros <-. by rewrite alloc_fresh in Hp.
Qed.

Lemma fcallhandler_step_keeps_records MAX_MSIZE H Root Bytes Reset pending x
    w w' calls st p fid :
  fcallhandler_step MAX_MSIZE H Root Bytes Reset pending x w = Some (w', calls, st) ->
  fidobjs w !! p = Some fid ->
  fidobjs w' !! p = Some fid.
Proof.
  unfold fcallhandler_step. intros Hs Hp.
  assert (Hp1 : fidobjs (set_rc Reset w) !! p = Some fid) by exact Hp.
  assert (Hresp : forall e w2, fidobjs w2 !! p = Some fid ->
            fidobjs (respond x e w2) !! p = Some fid).
  { intros e w2 H2. unfold respond. by destruct (negb _). }
  destruct (fcType x =? Tversion).
  { unfold rversion in Hs. destruct (_ && _); simpl in Hs; simplify_eq;
      by apply Hresp. }
  destruct (fcType x =? Tattach).
  { destruct (rattach x (set_rc Reset w)) as [[e w2]|] eqn:Hr; simplify_eq.
    apply Hresp. by eapply rattach_keeps_records. }
  destruct (fcType x =? Tauth).
  { unfold rauth in Hs. simpl in Hs. simplify_eq. by apply Hresp. }
  destruct (fcType x =? Tstat).
  { destruct (rstat Bytes x (set_rc Reset w)) as [[[e w2] stat]|] eqn:Hr;
      simplify_eq.
    apply Hresp. unfold rstat in Hr. by repeat case_match; simplify_eq. }
  destruct (fcType x =? Tcreate).
  { destruct (rcreate H Root x (set_rc Reset w)) as [[[e w2] c]|] eqn:Hr;
      simplify_eq.
    apply Hresp. by eapply rcreate_keeps_records. }
  destruct (fcType x =? Twalk).
  { destruct (rwalk x (set_rc Reset w)) as [[e w2]|] eqn:Hr; simplify_eq.
    apply Hresp. by eapply rwalk_keeps_records. }
  simplify_eq. by apply Hresp.
Qed.

Lemma serve_keeps_records MAX_MSIZE H Root Bytes Reset xs p fid :
  forall w w',
    serve MAX_MSIZE H Root Bytes Reset xs w = Some w' ->
    fidobjs w !! p = Some fid ->
    fidobjs w' !! p = Some fid.
Proof.
  induction xs as [|[pending x] xs IH]; intros w w' Hs Hp; simpl in Hs.
  { by simplify_eq. }
  destruct (fcallhandler_step MAX_MSIZE H Root Bytes Reset pending x w)
    as [[[w1 c] st]|] eqn:Hstep; [|discriminate].
  eapply IH; [exact Hs|]. by eapply fcallhandler_step_keeps_records.
Qed.

(** C9, as amended.  A Twalk with no names from a fid that exists and is
    not open binds newfid to the very record fid is bound to, and
    allocates nothing: both handles then read the same node, uid and open
    state.  The shared record is never written again: whatever requests
    the server handles afterwards, the record is as it was, and every
    handle still bound to it reads what it read.  Becoming open does not
    show through the other handle: a create through fid binds fid to a
    new, open record, and newfid still reads the shared record, not
    open. *)
Theorem rwalk_zero_names_shares_record tx w p fid :
  fids w !! fcFid tx = Some p ->
  fidobjs w !! p = Some fid ->
  open fid = false ->
  fcWname tx = [] ->
  exists w',
    rwalk tx w = Some ("", w') /\
    fids w' !! fcNewfid tx = Some p /\
    fids w' !! fcFid tx = Some p /\
    fidobjs w' = fidobjs w /\
    fid_load (fcNewfid tx) w' = Some fid /\
    fid_load (fcFid tx) w' = Some fid /\
    (forall MAX_MSIZE H Root Bytes Reset xs w'',
       serve MAX_MSIZE H Root Bytes Reset xs w' = Some w'' ->
       fidobjs w'' !! p = Some fid /\
       forall k, fids w'' !! k = Some p -> fid_load k w'' = Some fid) /\
    (forall H Root fc w'' calls,
       fcFid fc = fcFid tx ->
       fcNewfid tx <> fcFid tx ->
       rcreate H Root fc w' = Some ("", w'', calls) ->
       (exists f, fid_load (fcFid tx) w'' = Some (mkFid f (uid fid) true)) /\
       fid_load (fcNewfid tx) w'' = Some fid).
Proof.
  intros Hfid Hp Hopen Hw.
  eexists. split; [by apply (rwalk_zero_names tx w p fid)|].
  assert (Hn : <[fcNewfid tx := p]> (fids w) !! fcNewfid tx = Some p)
    by apply lookup_insert_eq.
  assert (Hf : <[fcNewfid tx := p]> (fids w) !! fcFid tx = Some p).
  { destruct (decide (fcNewfid tx = fcFid tx)) as [->|Hne];
      [apply lookup_insert_eq|by rewrite lookup_insert_ne]. }
  unfold fid_load. simpl. rewrite Hn, Hf, Hp.
  repeat (split; [reflexivity|]). split.
  - intros MAX_MSIZE H Root Bytes Reset xs w'' Hs.
    assert (Hrec : fidobjs w'' !! p = Some fid)
      by (eapply serve_keeps_records; [exact Hs|exact Hp]).
    split; [exact Hrec|]. intros k Hk. by rewrite Hk.
  - intros H Root fc w'' calls Hk Hne Hc.
    destruct (rcreate_inv _ _ _ _ _ _ _ Hc) as [[He _]|[_ Hs]]; [done|].
    destruct Hs as (p0 & fid0 & pf & ch & info & stat & Hp0 & Hfid0 & _ & _ & _ &
                    _ & _ & _ & _ & _ & _ & Hw'' & _).
    simpl in Hp0, Hfid0, Hw''. rewrite Hk, Hf in Hp0. injection Hp0 as <-.
    rewrite Hp in Hfid0. injection Hfid0 as <-.
    subst w''. simpl. rewrite Hk, lookup_insert_eq, lookup_insert_eq.
    split; [by eexists|].
    rewrite lookup_insert_ne by (intros Heq; by apply Hne).
    rewrite Hn. rewrite lookup_insert_ne; [exact Hp|].
    intros <-. by rewrite alloc_fresh in Hp.
Qed.

(** On the example server: after the empty walk from fid 1 to fid 3, bob
    creates [hello] through fid 1; the record the two handles shared is as
    it was, and fid 3, still bound to it, reads the root, not open. *)
Lemma rwalk_zero_names_shares_record_witness :
  fid_load 1 ex_world = Some (mkFid 0%nat "bob" false) /\
  exists w' w'',
    rwalk (Twalk_msg 1 3 []) ex_world = Some ("", w') /\
    fids w' !! 3 = fids w' !! 1 /\
    serve 8216 (ex_host [] [] [] []) "/srv" ex_Bytes ex_Reset
      [(false, Tcreate_msg 1 "hello" 0x1A4 OWRITE)] w' = Some w'' /\
    fid_load 3 w'' = Some (mkFid 0%nat "bob" false).
Proof.
  split; [reflexivity|].
  destruct (rwalk_zero_names_shares_record (Twalk_msg 1 3 []) ex_world 0%nat
              (mkFid 0%nat "bob" false))
    as (w' & Hr & Hn & Hf & _ & _ & _ & Hlater & _); try reflexivity.
  destruct (serve 8216 (ex_host [] [] [] []) "/srv" ex_Bytes ex_Reset
              [(false, Tcreate_msg 1 "hello" 0x1A4 OWRITE)] w') as [w''|] eqn:Hs.
  - destruct (Hlater _ _ _ _ _ _ _ Hs) as [_ Hk].
    exists w', w''. split; [exact Hr|]. split; [exact (eq_trans Hn (eq_sym Hf))|].
    split; [exact Hs|]. apply Hk.
    vm_compute in Hr. injection Hr as <-. vm_compute in Hs. injection Hs as <-.
    reflexivity.
  - exfalso. vm_compute in Hr. injection Hr as <-. vm_compute in Hs. discriminate Hs.
Defined.

(** C9, as the claim puts it, fails in its last part: becoming open does
    not show through the other handle.  After the empty walk from fid 1 to
    fid 3 both are bound to one record; bob then creates [hello] through
    fid 1, which binds fid 1 to a new, open record on the new node, while
    fid 3 still reads the root, not open. *)
Lemma rwalk_alias_misses_create :
  exists w1 w2 calls f,
    rwalk (Twalk_msg 1 3 []) ex_world = Some ("", w1) /\
    fids w1 !! 3 = fids w1 !! 1 /\
    rcreate (ex_host [] [] [] []) "/srv" (Tcreate_msg 1 "hello" 0x1A4 OWRITE) w1
      = Some ("", w2, calls) /\
    fid_load 1 w2 = Some (mkFid f "bob" true) /\
    fid_load 3 w2 = Some (mkFid 0%nat "bob" false).
Proof.
  eexists _, _, _, _. split; [reflexivity|]. split; [reflexivity|].
  split; [vm_compute; reflexivity|]. split; vm_compute; reflexivity.
Qed.

(** ** Create *)

Section Create.
Variable H : Host.

(** [writeOwnership] neither stats nor removes. *)
Lemma writeOwnership_calls path uid gid err calls :
  writeOwnership H path uid gid = (err, calls) ->
  forall p, (Stat p ∉ calls) /\ (Remove p ∉ calls).
Proof.
  unfold writeOwnership. intros Hw p.
  repeat case_match; simplify_eq; split; intros Hin;
    repeat (apply elem_of_cons in Hin as [Hin|Hin]; [discriminate|]);
    by apply elem_of_nil in Hin.
Qed.

(** A run of [rcreate] that does not get as far as [Stat] removes
    nothing: the failures of the creation itself and of the sidecar. *)
Lemma rcreate_no_remove_before_stat Root fc w emsg w' calls :
  rcreate H Root fc w = Some (emsg, w', calls) ->
  (forall p, Stat p ∉ calls) ->
  forall p, Remove p ∉ calls.
Proof.
  unfold rcreate, remove_after_failure. intros Hr Hstat p.
  repeat case_match; simplify_eq.
  all: try (intros Hin; by apply elem_of_nil in Hin).
  all: try (exfalso; eapply Hstat; rewrite !elem_of_app, !elem_of_cons; eauto 10; fail).
  - rewrite elem_of_cons, elem_of_nil. by intros [?|[]].
  - match goal with Hw : writeOwnership _ _ _ _ = _ |- _ =>
      pose proof (writeOwnership_calls _ _ _ _ _ Hw p) as [_ Hno] end.
    rewrite elem_of_app, elem_of_cons, elem_of_nil. by intros [[?|[]]|?].
Qed.

(** A run of [rcreate] that fails after [Stat] has left the state as it
    was; its last host call is the removal of the file it had stated,
    the only removal; and its message is the path below the root, a colon
    and the error of [Stat] or of [info2stat], followed by " (and file was
    left on disk)" when that removal fails, and by nothing when it
    succeeds. *)
Lemma rcreate_removes_after_stat Root fc w emsg w' calls p :
  rcreate H Root fc w = Some (emsg, w', calls) ->
  emsg <> "" ->
  Stat p ∈ calls ->
  exists before fid pf err,
    fid_load (fcFid fc) w = Some fid /\
    files w !! file fid = Some pf /\
    p = Join H [Root; Name (dir pf); fcName fc] /\
    (Stat_res H p = inl err \/
     exists info, Stat_res H p = inr info /\ info2stat info = inl err) /\
    calls = before ++ [Stat p; Remove p] /\
    (forall q, Remove q ∉ before) /\
    w' = w /\
    (is_Some (Remove_err H p) ->
     emsg = (Join H [Name (dir pf); fcName fc] +:+ ": " +:+ err)
              +:+ " (and file was left on disk)") /\
    (Remove_err H p = None ->
     emsg = Join H [Name (dir pf); fcName fc] +:+ ": " +:+ err).
Proof.
  unfold rcreate, remove_after_failure, fid_load. intros Hr Hne Hstat.
  repeat case_match; simplify_eq.
  all: try (by apply elem_of_nil in Hstat).
  all: match goal with
       | Hw : writeOwnership _ _ _ _ = _ |- _ =>
           pose proof (writeOwnership_calls _ _ _ _ _ Hw) as Hno
       | _ => idtac
       end.
  all: rewrite ?elem_of_app, ?elem_of_cons, ?elem_of_nil in Hstat.
  all: try (by destruct Hne).
  all: try (destruct Hstat as [?|[]]; discriminate).
  all: try (destruct Hstat as [[?|[]]|Hl]; [discriminate|by destruct (Hno p)]).
  all: assert (p = Join H [Root; Name (dir f0); fcName fc]) as ->
         by (destruct Hstat as [[[?|[]]|[Hl|[?|[]]]]|[?|[]]]; simplify_eq;
             try done; by destruct (Hno p)).
  all: match goal with
       | Hs : Stat_res H _ = inl ?err
         |- exists _ _ _ _, _ /\ _ /\ _ /\ _ /\ ([?c] ++ ?l ++ _) ++ _ = _ /\ _ =>
           exists ([c] ++ l), f, f0, err
       | Hi : info2stat _ = inl ?err
         |- exists _ _ _ _, _ /\ _ /\ _ /\ _ /\ ([?c] ++ ?l ++ _) ++ _ = _ /\ _ =>
           exists ([c] ++ l), f, f0, err
       end.
  all: split; [done|]; split; [done|]; split; [done|].
  all: split; [first [by left|right; by eexists]|].
  all: split; [by rewrite <- !app_assoc|].
  all: split;
         [intros q; rewrite elem_of_app, elem_of_cons, elem_of_nil;
          intros [[?|[]]|?]; [done|by destruct (Hno q)]|].
  all: split; [done|].
  all: split; [intros [? ?]|intros ?]; simplify_eq; reflexivity.
Qed.
End Create.

(** C3.  When the sidecar cannot be written, [rcreate] returns the error
    without unlinking the host file it has just created: bob creates
    [hello] below the root, the host creates [/srv/hello], the write to
    [/srv/hello.vufs] fails, and the handler returns after the calls
    listed, none of which is a removal.  (After a failing [Stat] the file
    is removed: [rcreate_removes_after_stat].) *)
Theorem rcreate_sidecar_failure_keeps_file :
  let H := ex_host [] ["/srv/hello.vufs"] [] [] in
  let calls :=
    [OpenFile "/srv/hello" 65 420;
     OpenFile "/srv/hello.vufs" 577 384;
     WriteString "/srv/hello.vufs" ("bob:adm" +:+ newline);
     Close "/srv/hello.vufs"] in
  OpenFile_err H "/srv/hello" 65 420 = None /\
  fst (writeOwnership H "/srv/hello" "bob" "adm") = Some "input/output error" /\
  rcreate H "/srv" (Tcreate_msg 1 "hello" 0x1A4 OWRITE) ex_world =
    Some ("/hello: input/output error", ex_world, calls) /\
  Remove "/srv/hello" ∉ calls.
Proof.
  intros H calls. split; [reflexivity|]. split; [reflexivity|].
  split; [vm_compute; reflexivity|].
  unfold calls. rewrite !elem_of_cons, elem_of_nil.
  intros [?|[?|[?|[?|[]]]]]; discriminate.
Qed.

(** The same creation with a failing [Stat] and a failing removal: the
    file is stated, then removed, and the message says it was left. *)
Example rcreate_stat_failure_removes :
  rcreate (ex_host [] [] ["/srv/hello"] ["/srv/hello"]) "/srv"
    (Tcreate_msg 1 "hello" 0x1A4 OWRITE) ex_world =
  Some ("/hello: input/output error (and file was left on disk)", ex_world,
        [OpenFile "/srv/hello" 65 420;
         OpenFile "/srv/hello.vufs" 577 384;
         WriteString "/srv/hello.vufs" ("bob:adm" +:+ newline);
         Close "/srv/hello.vufs";
         Stat "/srv/hello";
         Remove "/srv/hello"]).
Proof. vm_compute. reflexivity. Qed.

(** ** Building the tree *)

(** The node [buildfile] builds has the qid type [Null()] left, a child
    map of its own, and, for a directory, [QTDIR] in its qid version. *)
Lemma buildfile_node H nullDir DEFAULT_USER Root ospath info s f fs' :
  buildfile H nullDir DEFAULT_USER Root ospath info s = Some (inr f, fs') ->
  exists node,
    fs' !! f = Some node /\
    QType (DQid (dir node)) = QType (DQid nullDir) /\
    children node = Some ∅ /\
    (fiIsDir info = true -> Z.land (Vers (DQid (dir node))) QTDIR = QTDIR).
Proof.
  unfold buildfile. intros Hb.
  assert (Hbit : forall v, Z.land (Z.lor v QTDIR) QTDIR = QTDIR).
  { intros v. apply Z.bits_inj'. intros n _. rewrite Z.land_spec, Z.lor_spec.
    destruct (Z.testbit v n), (Z.testbit QTDIR n); reflexivity. }
  repeat case_match; simplify_eq; eexists.
  all: split;
    [first [apply lookup_insert_eq
           |rewrite lookup_insert_ne, lookup_insert_eq; [reflexivity|];
            intros ->;
            match goal with Hl : lfiles _ !! alloc _ = Some _ |- _ =>
              by rewrite alloc_fresh in Hl end]|].
  all: repeat split; simpl; intros Hd; try discriminate Hd; apply Hbit.
Qed.

(** C4.  [buildfile] does not set the DIR bit of [qid.type]: it leaves the
    type as [Null()] left it and ORs [QTDIR] into the qid version.  Built
    from the same state, a directory and a regular file therefore agree on
    the DIR bit of their qid type, whatever [Null()] leaves; and the
    regular file has a child map as well. *)
Theorem buildfile_DIR_bit_ignores_IsDir nullDir DEFAULT_USER :
  let H := ex_host [] [] [] [] in
  exists f1 fs1 node_d f2 fs2 node_f,
    buildfile H nullDir DEFAULT_USER "/srv" "/srv/x" (ex_info true) ex_loading
      = Some (inr f1, fs1) /\
    fs1 !! f1 = Some node_d /\
    buildfile H nullDir DEFAULT_USER "/srv" "/srv/x" (ex_info false) ex_loading
      = Some (inr f2, fs2) /\
    fs2 !! f2 = Some node_f /\
    Z.land (Mode (dir node_d)) DMDIR = DMDIR /\
    Z.land (Mode (dir node_f)) DMDIR = 0 /\
    has_DIR_bit (DQid (dir node_d)) = has_DIR_bit (DQid nullDir) /\
    has_DIR_bit (DQid (dir node_f)) = has_DIR_bit (DQid nullDir) /\
    Z.land (Vers (DQid (dir node_d))) QTDIR = QTDIR /\
    children node_f = Some ∅.
Proof.
  intros H.
  destruct (buildfile H nullDir DEFAULT_USER "/srv" "/srv/x" (ex_info true) ex_loading)
    as [[[e|f1] fs1]|] eqn:H1; [discriminate H1|..|discriminate H1].
  destruct (buildfile H nullDir DEFAULT_USER "/srv" "/srv/x" (ex_info false) ex_loading)
    as [[[e|f2] fs2]|] eqn:H2; [discriminate H2|..|discriminate H2].
  destruct (buildfile_node _ _ _ _ _ _ _ _ _ H1) as (nd & Hd & Hqd & _ & Hvd).
  destruct (buildfile_node _ _ _ _ _ _ _ _ _ H2) as (nf & Hf & Hqf & Hcf & _).
  exists f1, fs1, nd, f2, fs2, nf.
  split; [reflexivity|]. split; [exact Hd|]. split; [reflexivity|]. split; [exact Hf|].
  unfold has_DIR_bit. rewrite Hqd, Hqf.
  assert (Hmd : Mode (dir nd) = Z.lor 0x1A4 DMDIR /\ Mode (dir nf) = 0x1A4).
  { vm_compute in H1, H2. simplify_eq. vm_compute in Hd, Hf. by simplify_eq. }
  destruct Hmd as [-> ->].
  repeat split; [exact (Hvd eq_refl)|exact Hcf].
Qed.

(** A node [rcreate] inserts for a directory has the DIR bit and no child
    map: creating below it is a write to a nil map. *)
Example rcreate_directory_without_child_map :
  exists w' calls node,
    rcreate (ex_host [] [] [] []) "/srv"
      (Tcreate_msg 1 "sub" (Z.lor DMDIR 0x1ED) OREAD) ex_world = Some ("", w', calls) /\
    fid_load 1 w' = Some (mkFid 3%nat "bob" true) /\
    files w' !! 3%nat = Some node /\
    has_DIR_bit (DQid (dir node)) = true /\
    children node = None /\
    rcreate (ex_host [] [] [] []) "/srv" (Tcreate_msg 1 "y" 0x1A4 OWRITE) w' = None.
Proof.
  eexists _, _, _. split; [vm_compute; reflexivity|].
  split; [vm_compute; reflexivity|]. split; [vm_compute; reflexivity|].
  split; [reflexivity|]. split; [reflexivity|]. vm_compute. reflexivity.
Qed.


(** * Further properties of the source *)

(** ** Authorization, continued *)

Lemma land_707_other m : Z.land m 7 = Z.land (Z.land m 0x1C7) 7.
Proof. by rewrite <- Z.land_assoc. Qed.

Lemma land_707_owner m : Z.land (m ≫ 6) 7 = Z.land (Z.land m 0x1C7 ≫ 6) 7.
Proof. by rewrite Z.shiftr_land, <- Z.land_assoc. Qed.

(** X1.  [CheckPerm] reads the owner of a node, the owner bits and the
    other bits of its mode, and nothing else: two nodes with the same
    owner whose modes agree on the bits 0707 get the same answer for every
    uid and every permission, whatever their group and group bits. *)
Theorem CheckPerm_reads_owner_and_other f f' uid perm :
  Uid f = Uid f' ->
  Z.land (Mode f) 0x1C7 = Z.land (Mode f') 0x1C7 ->
  CheckPerm f uid perm = CheckPerm f' uid perm.
Proof.
  intros Hu Hm. rewrite !CheckPerm_effective_mask. unfold effective_mask.
  rewrite (land_707_other (Mode f)), (land_707_owner (Mode f)), Hu, Hm.
  by rewrite <- land_707_other, <- land_707_owner.
Qed.

(** A 0670 file of group staff and a 0600 file of group adm, both owned by
    alice, answer bob alike. *)
Lemma CheckPerm_reads_owner_and_other_witness :
  let f := mkDir 0 0 (mkQid 3 0 QTFILE) 0x1B8 0 0 0 "x" "alice" "staff" "alice" in
  let f' := mkDir 0 0 (mkQid 4 0 QTFILE) 0x180 0 0 0 "y" "alice" "adm" "alice" in
  Z.land (Mode f) 0x1C7 = Z.land (Mode f') 0x1C7 /\
  CheckPerm f "bob" DMREAD = CheckPerm f' "bob" DMREAD.
Proof.
  intros f f'. split; [reflexivity|].
  apply (CheckPerm_reads_owner_and_other f f' "bob" DMREAD); reflexivity.
Defined.

(** ** Version negotiation, continued *)

(** X2.  Version negotiation does not reset the session in the state: in
    every case [rversion] returns, and it leaves the fid table, the fid
    records and the tree as they were. *)
Theorem rversion_keeps_fids MAX_MSIZE pending fc w :
  exists emsg w',
    rversion MAX_MSIZE pending fc w = Some (emsg, w') /\
    fids w' = fids w /\ fidobjs w' = fidobjs w /\
    files w' = files w /\ root w' = root w.
Proof.
  unfold rversion.
  destruct (negb (String.eqb (negotiate (fcVersion fc)) "unknown") && pending);
    eexists _, _; (split; [reflexivity|]); repeat split.
Qed.

(** X3.  An accepted Tversion that finds a request waiting on the channel
    is itself answered with an error, and nothing is negotiated: the
    state, [msize] included, stays as it was. *)
Theorem rversion_drops_itself MAX_MSIZE fc w :
  accepted (fcVersion fc) ->
  rversion MAX_MSIZE true fc w =
    Some ("new session started, dropping this request", w).
Proof.
  intros Ha. unfold rversion. by rewrite (negotiate_accepted _ Ha).
Qed.

Lemma rversion_drops_itself_witness :
  accepted "9P2000" /\
  rversion 8216 true (Tversion_msg 4096 "9P2000") ex_world =
    Some ("new session started, dropping this request", ex_world).
Proof.
  split; [by left|].
  apply (rversion_drops_itself 8216 (Tversion_msg 4096 "9P2000") ex_world).
  by left.
Defined.

(** ** Attach, continued *)

(** X4.  What [rattach] returns tells what it found: success means the
    attach was to "/", without afid, on a free fid; an error means one of
    the three was not so, and the state is as it was. *)
Theorem rattach_outcome fc w emsg w' :
  rattach fc w = Some (emsg, w') ->
  (emsg = "" /\ fcAname fc = "/" /\ fcAfid fc = NOFID /\
   fids w !! fcFid fc = None /\ is_Some (fids w' !! fcFid fc)) \/
  (emsg <> "" /\ w' = w /\
   (fcAname fc <> "/" \/ fcAfid fc <> NOFID \/ is_Some (fids w !! fcFid fc))).
Proof.
  unfold rattach. intros Hr.
  destruct (String.eqb (fcAname fc) "/") eqn:Ha; simpl in Hr.
  2: { apply String.eqb_neq in Ha. simplify_eq. right. by repeat split; [|left]. }
  apply String.eqb_eq in Ha.
  destruct (fcAfid fc =? NOFID) eqn:Hf; simpl in Hr.
  2: { apply Z.eqb_neq in Hf. simplify_eq. right. by repeat split; [|right; left]. }
  apply Z.eqb_eq in Hf.
  destruct (fids w !! fcFid fc) eqn:Hk.
  { simplify_eq. right. by repeat split; [|right; right]. }
  destruct (files w !! root w); simplify_eq.
  left. repeat split; try done. simpl. rewrite lookup_insert_eq. by eexists.
Qed.

Lemma rattach_outcome_witness :
  exists emsg w',
    rattach (Tattach_msg 1 NOFID "mark" "/") ex_world = Some (emsg, w') /\
    emsg <> "" /\ w' = ex_world.
Proof.
  eexists _, _. split; [reflexivity|].
  destruct (rattach_outcome (Tattach_msg 1 NOFID "mark" "/") ex_world _ _ eq_refl)
    as [(He & _)|(He & Hw & _)]; [discriminate He|by split].
Defined.

(** A successful attach has bound its fid. *)
Lemma rattach_binds fc w w' :
  rattach fc w = Some ("", w') -> is_Some (fids w' !! fcFid fc).
Proof.
  unfold rattach. intros Hr.
  destruct (negb (String.eqb (fcAname fc) "/")); [discriminate|].
  destruct (negb (fcAfid fc =? NOFID)); [discriminate|].
  destruct (fids w !! fcFid fc); [discriminate|]. simpl in Hr.
  destruct (files w !! root w); simplify_eq.
  simpl. rewrite lookup_insert_eq. by eexists.
Qed.

(** X5.  A fid can be attached once: after an attach that succeeded, every
    further attach on the same fid is an error and leaves the state; when
    it is otherwise in order, the error is "fid already in use on this
    connection". *)
Theorem rattach_twice fc fc' w w' :
  rattach fc w = Some ("", w') ->
  fcFid fc' = fcFid fc ->
  (exists emsg, emsg <> "" /\ rattach fc' w' = Some (emsg, w')) /\
  (fcAname fc' = "/" -> fcAfid fc' = NOFID ->
   rattach fc' w' = Some ("fid already in use on this connection", w')).
Proof.
  intros Hr Hk.
  destruct (rattach_binds _ _ _ Hr) as [p Hp].
  rewrite <- Hk in Hp. unfold rattach. rewrite Hp. split.
  - destruct (negb (String.eqb (fcAname fc') "/"));
      [exists "can only attach to root directory"; by split|].
    destruct (negb (fcAfid fc' =? NOFID));
      [exists "authentication not supported"; by split|].
    exists "fid already in use on this connection". by split.
  - intros -> ->. reflexivity.
Qed.

Lemma rattach_twice_witness :
  exists w',
    rattach (Tattach_msg 5 NOFID "mark" "/") ex_world = Some ("", w') /\
    rattach (Tattach_msg 5 NOFID "bob" "/") w' =
      Some ("fid already in use on this connection", w').
Proof.
  destruct (rattach (Tattach_msg 5 NOFID "mark" "/") ex_world)
    as [[emsg w']|] eqn:Hr; [|discriminate Hr].
  assert (emsg = "") as -> by (vm_compute in Hr; congruence).
  exists w'. split; [reflexivity|].
  by apply (rattach_twice (Tattach_msg 5 NOFID "mark" "/")
              (Tattach_msg 5 NOFID "bob" "/") ex_world w' Hr).
Defined.

(** ** Walk, continued *)

Section WalkInversion.
Variable fs : gmap loc File.
Variable uid : string.

Lemma walks_length f names g qids :
  walks fs uid f names g qids -> length qids = length names.
Proof. induction 1; simpl; congruence. Qed.

(** What the loop returns tells how the walk went: the converse of
    [walk_loop_all], [walk_loop_first_fails] and [walk_loop_later_fails]. *)
Lemma walk_loop_inv names :
  forall f i acc r,
    walk_loop fs uid f i names acc = Some r ->
    match r with
    | WalkAll g qs =>
        exists qids, qs = acc ++ qids /\ walks fs uid f names g qids
    | WalkShort qs =>
        exists pre wn post g qids,
          names = pre ++ wn :: post /\ walks fs uid f pre g qids /\
          fails_at fs uid g wn /\ qs = acc ++ qids /\
          (i + length pre)%nat <> 0%nat
    | WalkError emsg =>
        i = 0%nat /\ emsg <> "" /\
        exists wn post, names = wn :: post /\ fails_at fs uid f wn
    end.
Proof.
  induction names as [|wn rest IH]; intros f i acc r Hl; simpl in Hl.
  { simplify_eq. exists []. split; [by rewrite app_nil_r|constructor]. }
  destruct (fs !! f) as [fo|] eqn:Hf; [|discriminate].
  assert (Hstep : forall f' fo',
    resolves fs uid f wn f' -> fs !! f' = Some fo' ->
    walk_loop fs uid f' (S i) rest (acc ++ [DQid (dir fo')]) = Some r ->
    match r with
    | WalkAll g qs =>
        exists qids, qs = acc ++ qids /\ walks fs uid f (wn :: rest) g qids
    | WalkShort qs =>
        exists pre wn' post g qids,
          wn :: rest = pre ++ wn' :: post /\ walks fs uid f pre g qids /\
          fails_at fs uid g wn' /\ qs = acc ++ qids /\
          (i + length pre)%nat <> 0%nat
    | WalkError emsg =>
        i = 0%nat /\ emsg <> "" /\
        exists wn' post, wn :: rest = wn' :: post /\ fails_at fs uid f wn'
    end).
  { intros f' fo' Hres Hf' Hrec. apply IH in Hrec.
    destruct r as [e|qs|g qs].
    - destruct Hrec as [? _]. lia.
    - destruct Hrec as (pre & wn' & post & g & qids & -> & Hw & Hfail & -> & _).
      exists (wn :: pre), wn', post, g, (DQid (dir fo') :: qids).
      split; [done|]. split; [by econstructor|]. split; [done|].
      split; [by rewrite <- app_assoc|]. simpl. lia.
    - destruct Hrec as (qids & -> & Hw).
      exists (DQid (dir fo') :: qids).
      split; [by rewrite <- app_assoc|]. by econstructor. }
  destruct (String.eqb wn "..") eqn:Hdd.
  - apply String.eqb_eq in Hdd. subst wn.
    destruct (fs !! parent fo) as [fo'|] eqn:Hf'; [|discriminate].
    apply (Hstep (parent fo) fo'); [|done..].
    exists fo. split; [done|]. by left.
  - apply String.eqb_neq in Hdd.
    assert (Hfail : forall e, e <> "" ->
      (map_get (children fo) wn = None \/
       exists f' fo', map_get (children fo) wn = Some f' /\
         fs !! f' = Some fo' /\ walk_denied fo' uid = true) ->
      (if Nat.eqb i 0 then Some (WalkError e) else Some (WalkShort acc)) = Some r ->
      match r with
      | WalkAll g qs =>
          exists qids, qs = acc ++ qids /\ walks fs uid f (wn :: rest) g qids
      | WalkShort qs =>
          exists pre wn' post g qids,
            wn :: rest = pre ++ wn' :: post /\ walks fs uid f pre g qids /\
            fails_at fs uid g wn' /\ qs = acc ++ qids /\
            (i + length pre)%nat <> 0%nat
      | WalkError emsg =>
          i = 0%nat /\ emsg <> "" /\
          exists wn' post, wn :: rest = wn' :: post /\ fails_at fs uid f wn'
      end).
    { intros e He Hwhy Hr.
      assert (Hfa : fails_at fs uid f wn) by (exists fo; done).
      destruct (Nat.eqb i 0) eqn:Hi; simplify_eq.
      - apply Nat.eqb_eq in Hi. split; [done|]. split; [done|]. by exists wn, rest.
      - apply Nat.eqb_neq in Hi. exists [], wn, rest, f, [].
        split; [done|]. split; [constructor|]. split; [done|].
        split; [by rewrite app_nil_r|]. simpl. lia. }
    destruct (map_get (children fo) wn) as [f'|] eqn:Hch.
    + destruct (fs !! f') as [fo'|] eqn:Hf'; [|discriminate].
      destruct (walk_denied fo' uid) eqn:Hden.
      * apply (Hfail "permission denied"); [done| |done].
        right. by exists f', fo'.
      * apply (Hstep f' fo'); [|done..].
        exists fo. split; [done|]. right. split; [done|]. split; [done|].
        by exists fo'.
    + apply (Hfail ("'" +:+ wn +:+ "' not found")); [done| |done]. by left.
Qed.

(** On a well-formed tree the loop does not panic, and where it walks
    every name it arrives at a node. *)
Lemma walk_loop_total names :
  wf_files fs ->
  forall f i acc,
    is_Some (fs !! f) ->
    exists r, walk_loop fs uid f i names acc = Some r /\
      forall g qs, r = WalkAll g qs -> is_Some (fs !! g).
Proof.
  intros Hwf. induction names as [|wn rest IH]; intros f i acc [fo Hf]; simpl.
  { eexists. split; [done|]. intros g qs [= <- _]. by exists fo. }
  rewrite Hf. destruct (Hwf f fo Hf) as [[fp Hfp] Hch].
  destruct (String.eqb wn "..").
  - rewrite Hfp. apply IH. by rewrite Hfp.
  - destruct (map_get (children fo) wn) as [f'|] eqn:Hc.
    + destruct (Hch wn f' Hc) as (co & Hco & _). rewrite Hco.
      destruct (walk_denied co uid).
      * destruct (Nat.eqb i 0); eexists; (split; [done|]); done.
      * apply IH. by rewrite Hco.
    + destruct (Nat.eqb i 0); eexists; (split; [done|]); done.
Qed.

(** Any number of [".."] from a node that is its own parent stays there. *)
Lemma walks_dotdot f fo n :
  fs !! f = Some fo ->
  parent fo = f ->
  walks fs uid f (replicate n "..") f (replicate n (DQid (dir fo))).
Proof.
  intros Hf Hp. induction n as [|n IH]; simpl; [constructor|].
  apply (walks_cons _ _ f ".." f fo); [|done..].
  exists fo. split; [done|]. left. by rewrite Hp.
Qed.
End WalkInversion.

(** What a successful [rwalk] with names went through. *)
Lemma rwalk_success_inv tx w w' :
  rwalk tx w = Some ("", w') ->
  fcWname tx <> [] ->
  exists p fid r,
    fids w !! fcFid tx = Some p /\
    fidobjs w !! p = Some fid /\
    open fid = false /\
    fids w !! fcNewfid tx = None /\
    walk_loop (files w) (uid fid) (file fid) 0 (fcWname tx) (fcWqid (rc w)) = Some r /\
    match r with
    | WalkError _ => False
    | WalkShort wqid => w' = set_rc (rc_Wqid wqid) w
    | WalkAll f wqid =>
        w' = set_fids <[fcNewfid tx := alloc (fidobjs w)]>
               (set_fidobjs <[alloc (fidobjs w) := mkFid f (uid fid) false]>
                  (set_rc (rc_Wqid wqid) w))
    end.
Proof.
  unfold rwalk. intros Hr Hn.
  destruct (fids w !! fcFid tx) as [p|] eqn:Hp; [|discriminate].
  destruct (fidobjs w !! p) as [fid|] eqn:Hfid; [|discriminate].
  destruct (fcWname tx) as [|wn ws] eqn:Hw; [done|].
  cbn [length Nat.eqb negb] in Hr.
  destruct (files w !! file fid) as [fo|] eqn:Hfo; [|discriminate].
  rewrite land_QTDIR_not_1 in Hr.
  destruct (open fid) eqn:Hopen; [discriminate|].
  destruct (fids w !! fcNewfid tx) eqn:Hnew; [discriminate|].
  match type of Hr with context [match ?l with _ => _ end] =>
    destruct l as [r|] eqn:Hloop end; [|discriminate].
  exists p, fid, r. repeat (split; [done|]).
  destruct r as [e|qs|g qs]; simplify_eq; try done.
  apply walk_loop_inv in Hloop. by destruct Hloop as (_ & He & _).
Qed.

(** X6.  Whatever [rwalk] returns, it has left the tree, the root and
    [msize] alone, it has not touched any fid record that existed, and it
    has changed the fid table at newfid at most; when it returns an error
    it has changed nothing at all. *)
Theorem rwalk_frame tx w emsg w' :
  rwalk tx w = Some (emsg, w') ->
  files w' = files w /\ root w' = root w /\ msize w' = msize w /\
  (forall p fid, fidobjs w !! p = Some fid -> fidobjs w' !! p = Some fid) /\
  (forall k, k <> fcNewfid tx -> fids w' !! k = fids w !! k) /\
  (emsg <> "" -> w' = w).
Proof.
  unfold rwalk. intros Hr.
  repeat case_match; simplify_eq; simpl; repeat split; try done.
  all: try (intros; by rewrite lookup_insert_ne).
  intros p' fid' Hp'. rewrite lookup_insert_ne; [done|].
  intros <-. by rewrite alloc_fresh in Hp'.
Qed.

Lemma rwalk_frame_witness :
  exists emsg w',
    rwalk (Twalk_msg 1 3 ["d"; "x"]) ex_world = Some (emsg, w') /\
    files w' = files ex_world /\ fids w' !! 2 = fids ex_world !! 2.
Proof.
  destruct (rwalk (Twalk_msg 1 3 ["d"; "x"]) ex_world) as [[emsg w']|] eqn:Hr;
    [|vm_compute in Hr; discriminate Hr].
  exists emsg, w'. split; [reflexivity|].
  destruct (rwalk_frame _ _ _ _ Hr) as (Hf & _ & _ & _ & Hk & _).
  split; [exact Hf|]. by apply Hk.
Defined.

(** X7.  The converse of the partial walk: when a successful walk with
    names has bound newfid, every name resolved in turn, the new record is
    fresh, not open, carries the uid of fid and stands on the node
    arrived at, and the reply has gained the qids of all the names; when
    it has not bound newfid, the names before some later name resolved,
    that name did not, and the reply has gained the qids of the names
    before it. *)
Theorem rwalk_success_walked tx w w' :
  rwalk tx w = Some ("", w') ->
  fcWname tx <> [] ->
  exists p fid,
    fids w !! fcFid tx = Some p /\ fidobjs w !! p = Some fid /\
    ((exists q g qids,
        fids w' !! fcNewfid tx = Some q /\
        fidobjs w !! q = None /\
        fidobjs w' !! q = Some (mkFid g (uid fid) false) /\
        walks (files w) (uid fid) (file fid) (fcWname tx) g qids /\
        fcWqid (rc w') = fcWqid (rc w) ++ qids) \/
     (exists pre wn post g qids,
        fids w' !! fcNewfid tx = None /\
        fcWname tx = pre ++ wn :: post /\ pre <> [] /\
        walks (files w) (uid fid) (file fid) pre g qids /\
        fails_at (files w) (uid fid) g wn /\
        fcWqid (rc w') = fcWqid (rc w) ++ qids)).
Proof.
  intros Hr Hn.
  destruct (rwalk_success_inv _ _ _ Hr Hn)
    as (p & fid & r & Hp & Hfid & _ & Hnew & Hloop & Hw').
  exists p, fid. repeat (split; [done|]).
  apply walk_loop_inv in Hloop. destruct r as [e|qs|g qs]; [done|..].
  - right. destruct Hloop as (pre & wn & post & g & qids & Hnm & Hw & Hf & -> & Hi).
    exists pre, wn, post, g, qids. subst w'. simpl.
    repeat (split; [done|]). split; [|done]. by destruct pre.
  - left. destruct Hloop as (qids & -> & Hw).
    exists (alloc (fidobjs w)), g, qids. subst w'. simpl.
    rewrite !lookup_insert_eq. repeat (split; [done|]).
    split; [apply alloc_fresh|done].
Qed.

Lemma rwalk_success_walked_witness :
  exists w' q,
    rwalk (Twalk_msg 1 3 ["d"; "x"]) ex_world = Some ("", w') /\
    fids w' !! 3 = Some q /\
    fcWqid (rc w') = [DQid (dir ex_d); DQid (dir ex_x)].
Proof.
  destruct (rwalk (Twalk_msg 1 3 ["d"; "x"]) ex_world) as [[emsg w']|] eqn:Hr;
    [|vm_compute in Hr; discriminate Hr].
  assert (emsg = "") as -> by (vm_compute in Hr; congruence).
  destruct (rwalk_success_walked _ _ _ Hr) as (p & fid & _ & _ & Hcase);
    [discriminate|].
  assert (Hq : fcWqid (rc w') = [DQid (dir ex_d); DQid (dir ex_x)])
    by (vm_compute in Hr; injection Hr as <-; reflexivity).
  destruct Hcase as [(q & _ & _ & Hb & _)|(_ & _ & _ & _ & _ & Hb & _)].
  - exists w', q. split; [reflexivity|]. by split.
  - exfalso. vm_compute in Hr. injection Hr as <-. vm_compute in Hb. discriminate Hb.
Defined.

(** X8.  A successful reply to a walk of n >= 1 names, built on a
    response without qids, carries at least one qid and at most n, and it
    carries n exactly when newfid has been bound. *)
Theorem rwalk_reply_count tx w w' :
  rwalk tx w = Some ("", w') ->
  fcWname tx <> [] ->
  fcWqid (rc w) = [] ->
  (1 <= length (fcWqid (rc w')) <= length (fcWname tx))%nat /\
  (length (fcWqid (rc w')) = length (fcWname tx) <->
   is_Some (fids w' !! fcNewfid tx)).
Proof.
  intros Hr Hn Hrc.
  destruct (rwalk_success_inv _ _ _ Hr Hn)
    as (p & fid & r & _ & _ & _ & Hnew & Hloop & Hw').
  apply walk_loop_inv in Hloop. rewrite Hrc in Hloop.
  destruct r as [e|qs|g qs]; [done|..].
  - destruct Hloop as (pre & wn & post & g & qids & Hnm & Hw & _ & -> & Hpre).
    subst w'. simpl. apply walks_length in Hw. rewrite Hw, Hnew, Hnm, length_app.
    simpl. split.
    + destruct pre; [done|simpl; lia].
    + split; [lia|]. by intros [? ?].
  - destruct Hloop as (qids & -> & Hw).
    subst w'. simpl. apply walks_length in Hw. rewrite Hw, lookup_insert_eq. split.
    + destruct (fcWname tx); [done|simpl; lia].
    + split; [by eexists|done].
Qed.

Lemma rwalk_reply_count_witness :
  exists w',
    rwalk (Twalk_msg 1 3 ["d"; "nope"; "x"]) ex_world = Some ("", w') /\
    (1 <= length (fcWqid (rc w')) <= 3)%nat.
Proof.
  destruct (rwalk (Twalk_msg 1 3 ["d"; "nope"; "x"]) ex_world)
    as [[emsg w']|] eqn:Hr; [|vm_compute in Hr; discriminate Hr].
  assert (emsg = "") as -> by (vm_compute in Hr; congruence).
  exists w'. split; [reflexivity|].
  by destruct (rwalk_reply_count _ _ _ Hr) as [Hc _].
Defined.

(** X9.  From a node that is its own parent, as the root is, a walk of
    any number of [".."] arrives at that node: newfid is bound to it and
    the reply gains its qid once for every name. *)
Theorem rwalk_dotdot_at_root tx w p fid fo n :
  fids w !! fcFid tx = Some p ->
  fidobjs w !! p = Some fid ->
  open fid = false ->
  fids w !! fcNewfid tx = None ->
  files w !! file fid = Some fo ->
  parent fo = file fid ->
  fcWname tx = replicate (S n) ".." ->
  exists w',
    rwalk tx w = Some ("", w') /\
    fid_load (fcNewfid tx) w' = Some (mkFid (file fid) (uid fid) false) /\
    fcWqid (rc w') = fcWqid (rc w) ++ replicate (S n) (DQid (dir fo)).
Proof.
  intros Hp Hfid Hopen Hnew Hfo Hpar Hnames.
  rewrite (rwalk_loop tx w p fid); try done.
  - rewrite Hnames.
    rewrite (walk_loop_all _ _ _ _ _ _ (walks_dotdot (files w) (uid fid) _ fo (S n) Hfo Hpar)).
    eexists. split; [reflexivity|]. unfold fid_load. simpl.
    by rewrite !lookup_insert_eq.
  - by rewrite Hnames.
Qed.

Lemma rwalk_dotdot_at_root_witness :
  parent ex_root = 0%nat /\
  exists w',
    rwalk (Twalk_msg 1 3 [".."; ".."]) ex_world = Some ("", w') /\
    fid_load 3 w' = Some (mkFid 0%nat "bob" false) /\
    fcWqid (rc w') = [DQid (dir ex_root); DQid (dir ex_root)].
Proof.
  split; [reflexivity|].
  by apply (rwalk_dotdot_at_root (Twalk_msg 1 3 [".."; ".."]) ex_world 0%nat
              (mkFid 0%nat "bob" false) ex_root 1).
Defined.

(** Walking from an open fid is refused, with names or without, and
    changes nothing. *)
Lemma rwalk_from_open_fid tx w p fid :
  fids w !! fcFid tx = Some p ->
  fidobjs w !! p = Some fid ->
  open fid = true ->
  is_Some (files w !! file fid) ->
  rwalk tx w = Some ("already open", w).
Proof.
  intros Hp Hfid Hopen [fo Hfo]. unfold rwalk. rewrite Hp, Hfid, Hfo.
  rewrite land_QTDIR_not_1, Hopen. by destruct (negb _).
Qed.

(** ** Well-formed states are kept *)

Lemma wf_world_set_rc g w : wf_world (set_rc g w) <-> wf_world w.
Proof. reflexivity. Qed.

Lemma wf_world_respond x emsg w : wf_world (respond x emsg w) <-> wf_world w.
Proof. unfold respond. by destruct (negb _). Qed.

(** Binding a fid to a record over a node keeps the state well formed,
    whether the record is there already or comes with the binding. *)
Lemma wf_world_bind k q fid w :
  wf_world w ->
  is_Some (files w !! file fid) ->
  fidobjs w !! q = None \/ fidobjs w !! q = Some fid ->
  wf_world (set_fids <[k := q]> (set_fidobjs <[q := fid]> w)).
Proof.
  intros (Hfs & Hroot & Hfids) Hnode Hq.
  split; [done|]. split; [done|]. simpl. intros k' p' Hk'.
  destruct (decide (p' = q)) as [->|Hne].
  - exists fid. by rewrite lookup_insert_eq.
  - rewrite lookup_insert_ne by done.
    destruct (decide (k = k')) as [->|Hk].
    + rewrite lookup_insert_eq in Hk'. congruence.
    + rewrite lookup_insert_ne in Hk' by done. by apply Hfids in Hk'.
Qed.

(** On a well-formed state [rwalk] does not panic, whatever the
    request, and the state it leaves is well formed. *)
Lemma rwalk_keeps_wf tx w :
  wf_world w ->
  exists emsg w', rwalk tx w = Some (emsg, w') /\ wf_world w'.
Proof.
  intros Hwf. pose proof Hwf as (Hfs & Hroot & Hfids). unfold rwalk.
  destruct (fids w !! fcFid tx) as [p|] eqn:Hp; [|by eexists _, _].
  destruct (Hfids _ _ Hp) as (fid & Hfid & [fo Hfo]). rewrite Hfid, Hfo.
  rewrite land_QTDIR_not_1.
  assert ((if negb (Nat.eqb (length (fcWname tx)) 0) then Some false else Some false)
          = Some false) as -> by (by destruct (negb _)).
  destruct (open fid); [by eexists _, _|].
  destruct (Nat.eqb (length (fcWname tx)) 0).
  { eexists _, _. split; [done|].
    replace w with (set_fidobjs <[p := fid]> w) at 1.
    - apply wf_world_bind; [done|by eexists|by right].
    - destruct w. unfold set_fidobjs. simpl in *. f_equal. by apply insert_id. }
  destruct (fids w !! fcNewfid tx); [by eexists _, _|].
  destruct (walk_loop_total (files w) (uid fid) (fcWname tx) Hfs (file fid) 0%nat
              (fcWqid (rc w))) as (r & -> & Hend); [by eexists|].
  destruct r as [e|qs|g qs]; eexists _, _; (split; [done|]); [done|done|].
  apply wf_world_bind; [done|by eapply Hend|left; apply alloc_fresh].
Qed.

(** On a well-formed state [rattach] does not panic, and the state
    it leaves is well formed. *)
Lemma rattach_keeps_wf fc w :
  wf_world w ->
  exists emsg w', rattach fc w = Some (emsg, w') /\ wf_world w'.
Proof.
  intros Hwf. pose proof Hwf as (Hfs & [r Hroot] & Hfids). unfold rattach.
  destruct (negb (String.eqb (fcAname fc) "/")); [by eexists _, _|].
  destruct (negb (fcAfid fc =? NOFID)); [by eexists _, _|].
  destruct (fids w !! fcFid fc); [by eexists _, _|].
  simpl. rewrite Hroot. eexists _, _. split; [done|].
  apply wf_world_set_rc.
  apply wf_world_bind; [done|by eexists|left; apply alloc_fresh].
Qed.

(** ** Create, continued *)

(** Hanging a new node without children below a node with a child map
    keeps the tree well formed: the step [rcreate] and [buildfile] share. *)
Lemma wf_files_add_child fs par pf ch name f fo :
  wf_files fs ->
  fs !! par = Some pf ->
  children pf = Some ch ->
  fs !! f = None ->
  parent fo = par ->
  Name (dir fo) = name ->
  (forall n c, map_get (children fo) n <> Some c) ->
  wf_files (<[par := mkFile (dir pf) (parent pf) (Some (<[name := f]> ch))]>
              (<[f := fo]> fs)).
Proof.
  intros Hwf Hpar Hch Hf Hfo Hname Hleaf.
  assert (Hne : par <> f) by (intros ->; congruence).
  set (pf' := mkFile (dir pf) (parent pf) (Some (<[name := f]> ch))).
  set (fs' := <[par := pf']> (<[f := fo]> fs)).
  assert (Hkeep : forall c co, fs !! c = Some co ->
            exists co', fs' !! c = Some co' /\ parent co' = parent co /\
                        dir co' = dir co).
  { intros c co Hc. unfold fs'. destruct (decide (c = par)) as [->|Hcp].
    - rewrite lookup_insert_eq. exists pf'. by simplify_eq.
    - rewrite !lookup_insert_ne; [by exists co|congruence|done]. }
  assert (Hstay : forall l, is_Some (fs !! l) -> is_Some (fs' !! l)).
  { intros l [co Hl]. destruct (Hkeep _ _ Hl) as (co' & -> & _). by eexists. }
  assert (Hold : forall l n c co0, fs !! l = Some co0 ->
            map_get (children co0) n = Some c ->
            exists co, fs' !! c = Some co /\ parent co = l /\ Name (dir co) = n).
  { intros l n c co0 Hl Hc. destruct (Hwf _ _ Hl) as [_ Hchild].
    destruct (Hchild _ _ Hc) as (co & Hco & <- & <-).
    destruct (Hkeep _ _ Hco) as (co' & ? & Hp' & Hd'). exists co'.
    by rewrite Hp', Hd'. }
  intros l fo0 Hl. unfold fs' in Hl.
  destruct (decide (l = par)) as [->|Hlp].
  - rewrite lookup_insert_eq in Hl. simplify_eq. simpl. split.
    + apply Hstay. by destruct (Hwf _ _ Hpar).
    + intros n c Hc. destruct (decide (n = Name (dir fo))) as [->|Hn].
      * rewrite lookup_insert_eq in Hc. simplify_eq. exists fo.
        unfold fs'. by rewrite lookup_insert_ne, lookup_insert_eq.
      * rewrite lookup_insert_ne in Hc by done.
        apply (Hold (parent fo) n c pf Hpar). by rewrite Hch.
  - rewrite lookup_insert_ne in Hl by done.
    destruct (decide (l = f)) as [->|Hlf].
    + rewrite lookup_insert_eq in Hl. simplify_eq. split.
      * unfold fs'. rewrite lookup_insert_eq. by eexists.
      * intros n c Hc. by apply Hleaf in Hc.
    + rewrite lookup_insert_ne in Hl by done. split.
      * apply Hstay. by destruct (Hwf _ _ Hl).
      * intros n c Hc. by apply (Hold l n c fo0).
Qed.

(** X10.  An error of [rcreate] changes nothing in the state. *)
Theorem rcreate_error_keeps_state H Root fc w emsg w' calls :
  rcreate H Root fc w = Some (emsg, w', calls) ->
  emsg <> "" ->
  w' = w.
Proof.
  intros Hr He. by destruct (rcreate_inv _ _ _ _ _ _ _ Hr) as [[_ ?]|[? _]].
Qed.

Lemma rcreate_error_keeps_state_witness :
  exists emsg w' calls,
    rcreate (ex_host [] [] [] []) "/srv" (Tcreate_msg 1 ".." 0x1A4 OWRITE) ex_world
      = Some (emsg, w', calls) /\
    emsg = ".. invalid name" /\ w' = ex_world.
Proof.
  eexists _, _, _. split; [reflexivity|]. split; [reflexivity|].
  by apply (rcreate_error_keeps_state (ex_host [] [] [] []) "/srv"
              (Tcreate_msg 1 ".." 0x1A4 OWRITE) ex_world ".. invalid name" _ []).
Defined.

(** X11.  [rcreate] touches the host only for a caller it has let
    through: when it has made any host call, the fid stood on a node with
    the DIR bit, the name was neither "." nor "..", the caller had W
    permission on the node, the name was not among its children, and the
    first call was the creation of the file, with [O_CREATE]. *)
Theorem rcreate_host_calls_guarded H Root fc w emsg w' calls :
  rcreate H Root fc w = Some (emsg, w', calls) ->
  calls <> [] ->
  exists fid pf rest,
    fid_load (fcFid fc) w = Some fid /\
    files w !! file fid = Some pf /\
    has_DIR_bit (DQid (dir pf)) = true /\
    fcName fc <> "." /\ fcName fc <> ".." /\
    CheckPerm (dir pf) (uid fid) DMWRITE = true /\
    map_get (children pf) (fcName fc) = None /\
    calls =
      OpenFile (Join H [Root; Name (dir pf); fcName fc])
        (Z.lor (openflags (fcMode fc) (fcPerm fc)) O_CREATE)
        (Z.land (fcPerm fc) 0x1FF) :: rest.
Proof.
  unfold rcreate, remove_after_failure, fid_load. intros Hr Hc.
  repeat case_match; simplify_eq.
  all: repeat match goal with
         | Hb : (_ || _) = false |- _ => apply orb_false_iff in Hb as [? ?]
         | Hb : negb _ = false |- _ => apply negb_false_iff in Hb
         | Hb : String.eqb _ _ = false |- _ => apply String.eqb_neq in Hb
         | Hb : bool_decide _ = false |- _ => apply bool_decide_eq_false in Hb
         | Hb : ¬ is_Some _ |- _ => apply eq_None_not_Some in Hb
         end.
  all: match goal with
       | Hf : fidobjs _ !! _ = Some ?fid, Hp : files _ !! file ?fid = Some ?pf |- _ =>
           exists fid, pf
       end; eexists.
  all: split; [done|]; split; [done|].
  all: split; [unfold has_DIR_bit; by apply negb_true_iff|].
  all: repeat (split;
         [first [done
                |by match goal with Hch : children _ = Some _ |- _ => rewrite Hch end]
         |]);
       reflexivity.
Qed.

Lemma rcreate_host_calls_guarded_witness :
  exists emsg w' calls,
    rcreate (ex_host ["/srv/hello"] [] [] []) "/srv"
      (Tcreate_msg 1 "hello" 0x1A4 OWRITE) ex_world = Some (emsg, w', calls) /\
    calls <> [] /\
    CheckPerm (dir ex_root) "bob" DMWRITE = true.
Proof.
  destruct (rcreate (ex_host ["/srv/hello"] [] [] []) "/srv"
              (Tcreate_msg 1 "hello" 0x1A4 OWRITE) ex_world)
    as [[[emsg w'] calls]|] eqn:Hr; [|vm_compute in Hr; discriminate Hr].
  assert (Hc : calls <> []) by (vm_compute in Hr; intros ->; discriminate Hr).
  exists emsg, w', calls. split; [reflexivity|]. split; [exact Hc|].
  destruct (rcreate_host_calls_guarded _ _ _ _ _ _ _ Hr Hc)
    as (fid & pf & rest & Hfid & Hpf & _ & _ & _ & Hperm & _).
  vm_compute in Hfid. injection Hfid as <-.
  vm_compute in Hpf. injection Hpf as <-. exact Hperm.
Defined.

(** X12.  What a successful [rcreate] leaves: a new node below the node of
    the caller's fid, under the name asked for, owned by the caller, in
    the group of the directory, with the mode asked for, length 0 and no
    child map; the directory unchanged but for the new entry; every other
    node as it was; the caller's fid rebound to a fresh, open record over
    the new node with the same uid; the qid of the new node in the reply;
    and on the host the sidecar written with "uid:gid" and a newline. *)
Theorem rcreate_success H Root fc w w' calls :
  rcreate H Root fc w = Some ("", w', calls) ->
  exists fid pf f node pf',
    fid_load (fcFid fc) w = Some fid /\
    files w !! file fid = Some pf /\
    files w !! f = None /\
    files w' !! f = Some node /\
    parent node = file fid /\
    Name (dir node) = fcName fc /\
    Uid (dir node) = uid fid /\
    Gid (dir node) = Gid (dir pf) /\
    Muid (dir node) = uid fid /\
    Mode (dir node) = fcPerm fc /\
    Length (dir node) = 0 /\
    children node = None /\
    files w' !! file fid = Some pf' /\
    dir pf' = dir pf /\ parent pf' = parent pf /\
    map_get (children pf') (fcName fc) = Some f /\
    (forall n, n <> fcName fc ->
       map_get (children pf') n = map_get (children pf) n) /\
    (forall l, l <> f -> l <> file fid -> files w' !! l = files w !! l) /\
    fid_load (fcFid fc) w' = Some (mkFid f (uid fid) true) /\
    fcQid (rc w') = DQid (dir node) /\
    WriteString (Join H [Root; Name (dir pf); fcName fc] +:+ ".vufs")
      (uid fid +:+ ":" +:+ Gid (dir pf) +:+ newline) ∈ calls.
Proof.
  intros Hr. destruct (rcreate_inv _ _ _ _ _ _ _ Hr) as [[? _]|[_ Hs]]; [done|].
  destruct Hs as (p & fid & pf & ch & info & stat & Hp & Hfid & Hpf & Hch & _ &
                  _ & _ & _ & Hnew & _ & _ & Hw & Hcalls).
  simpl in Hw, Hcalls. subst w' calls.
  assert (Hne : file fid <> alloc (files w)).
  { intros Heq. rewrite Heq, alloc_fresh in Hpf. discriminate. }
  eexists fid, pf, (alloc (files w)), _, _.
  unfold fid_load. simpl. rewrite Hp, Hfid.
  split; [done|]. split; [done|]. split; [apply alloc_fresh|].
  split; [by rewrite lookup_insert_ne, lookup_insert_eq|].
  simpl. repeat (split; [done|]).
  split; [apply lookup_insert_eq|].
  simpl. repeat (split; [done|]).
  split; [apply lookup_insert_eq|].
  split; [intros n Hn; by rewrite Hch; simpl; rewrite lookup_insert_ne|].
  split; [intros l Hl1 Hl2; by rewrite !lookup_insert_ne|].
  rewrite !lookup_insert_eq.
  repeat (split; [done|]).
  rewrite !elem_of_cons. auto.
Qed.

Lemma rcreate_success_witness :
  exists w' calls f,
    rcreate (ex_host [] [] [] []) "/srv" (Tcreate_msg 2 "hello" 0x1A4 OWRITE)
      ex_world = Some ("", w', calls) /\
    fid_load 2 w' = Some (mkFid f "mark" true) /\
    WriteString "/srv/hello.vufs" ("mark:adm" +:+ newline) ∈ calls.
Proof.
  destruct (rcreate (ex_host [] [] [] []) "/srv" (Tcreate_msg 2 "hello" 0x1A4 OWRITE)
              ex_world) as [[[emsg w'] calls]|] eqn:Hr;
    [|vm_compute in Hr; discriminate Hr].
  assert (emsg = "") as -> by (vm_compute in Hr; congruence).
  destruct (rcreate_success _ _ _ _ _ _ Hr)
    as (fid & pf & f & node & pf' & Hfid & Hpf & _ & _ & _ & _ & _ & _ & _ & _ &
        _ & _ & _ & _ & _ & _ & _ & _ & Hl & _ & Hin).
  vm_compute in Hfid. injection Hfid as <-.
  vm_compute in Hpf. injection Hpf as <-.
  exists w', calls, f. split; [reflexivity|]. split; [exact Hl|exact Hin].
Defined.

(** When [rcreate] returns on a well-formed state, the state it
    leaves is well formed. *)
Lemma rcreate_keeps_wf H Root fc w emsg w' calls :
  wf_world w ->
  rcreate H Root fc w = Some (emsg, w', calls) ->
  wf_world w'.
Proof.
  intros Hwf Hr. destruct (rcreate_inv _ _ _ _ _ _ _ Hr) as [[_ ->]|[_ Hs]]; [done|].
  destruct Hs as (p & fid & pf & ch & info & stat & Hp & Hfid & Hpf & Hch & _ &
                  _ & _ & _ & Hnew & _ & _ & Hw & _).
  simpl in Hw. subst w'. destruct Hwf as (Hfs & Hroot & Hfids).
  apply wf_world_set_rc.
  assert (Hne : file fid <> alloc (files w)).
  { intros Heq. rewrite Heq, alloc_fresh in Hpf. discriminate. }
  assert (Hstay : forall l, is_Some (files w !! l) ->
            is_Some ((<[file fid := mkFile (dir pf) (parent pf)
                          (Some (<[fcName fc := alloc (files w)]> ch))]>
                        (<[alloc (files w) := mkFile
                             (mkDir 0 0 (mkQid (Ino stat) 0 ((fcPerm fc ≫ 24) `mod` 2 ^ 8))
                                (fcPerm fc) (Now H `mod` 2 ^ 32) (Now H `mod` 2 ^ 32) 0
                                (fcName fc) (uid fid) (Gid (dir pf)) (uid fid))
                             (file fid) None]> (files w))) !! l)).
  { intros l Hl. destruct (decide (l = file fid)) as [->|?];
      [rewrite lookup_insert_eq; by eexists|].
    rewrite lookup_insert_ne by done.
    destruct (decide (l = alloc (files w))) as [->|?];
      [rewrite lookup_insert_eq; by eexists|by rewrite lookup_insert_ne]. }
  split; [|split].
  - simpl. apply wf_files_add_child; try done. apply alloc_fresh.
  - simpl. by apply Hstay.
  - simpl. intros k p' Hk.
    destruct (decide (p' = alloc (fidobjs w))) as [->|Hpq].
    + eexists. rewrite lookup_insert_eq. split; [done|]. simpl.
      rewrite lookup_insert_ne, lookup_insert_eq by done. by eexists.
    + rewrite lookup_insert_ne by done.
      destruct (decide (k = fcFid fc)) as [->|Hkk].
      * rewrite lookup_insert_eq in Hk. congruence.
      * rewrite lookup_insert_ne in Hk by done.
        destruct (Hfids _ _ Hk) as (fid' & Hfid' & Hnode).
        exists fid'. split; [done|]. by apply Hstay.
Qed.

(** X13.  Create and walk back: after a successful create through one
    fid, a walk of the new name by another fid that stands on the same
    directory arrives at the new node; the qid in the reply is the qid
    the create answered with, and newfid is bound to the new node with the
    uid of the walking fid. *)
Theorem rcreate_then_walk H Root fc w w' calls tx fid p2 fid2 :
  rcreate H Root fc w = Some ("", w', calls) ->
  fid_load (fcFid fc) w = Some fid ->
  fids w !! fcFid tx = Some p2 ->
  fidobjs w !! p2 = Some fid2 ->
  file fid2 = file fid ->
  open fid2 = false ->
  fcFid tx <> fcFid fc ->
  fcNewfid tx <> fcFid fc ->
  fids w !! fcNewfid tx = None ->
  fcWname tx = [fcName fc] ->
  exists w'' f,
    rwalk tx w' = Some ("", w'') /\
    fid_load (fcFid fc) w' = Some (mkFid f (uid fid) true) /\
    fid_load (fcNewfid tx) w'' = Some (mkFid f (uid fid2) false) /\
    fcWqid (rc w'') = fcWqid (rc w) ++ [fcQid (rc w')].
Proof.
  intros Hr Hload Hp2 Hfid2 Hsame Hopen Hk Hnk Hnew Hnames.
  destruct (rcreate_inv _ _ _ _ _ _ _ Hr) as [[? _]|[_ Hs]]; [done|].
  destruct Hs as (p & fid' & pf & ch & info & stat & Hp & Hfid & Hpf & Hch & _ &
                  _ & Hdd & _ & _ & _ & _ & Hw & _).
  assert (fid' = fid) as -> by (unfold fid_load in Hload; rewrite Hp in Hload; congruence).
  simpl in Hw.
  assert (Hne : file fid <> alloc (files w)).
  { intros Heq. rewrite Heq, alloc_fresh in Hpf. discriminate. }
  assert (Hp2q : p2 <> alloc (fidobjs w)).
  { intros ->. rewrite alloc_fresh in Hfid2. discriminate. }
  set (f := alloc (files w)) in *.
  set (fo := mkFile
               (mkDir 0 0 (mkQid (Ino stat) 0 ((fcPerm fc ≫ 24) `mod` 2 ^ 8))
                  (fcPerm fc) (Now H `mod` 2 ^ 32) (Now H `mod` 2 ^ 32) 0
                  (fcName fc) (uid fid) (Gid (dir pf)) (uid fid))
               (file fid) None) in *.
  set (pf' := mkFile (dir pf) (parent pf) (Some (<[fcName fc := f]> ch))) in *.
  assert (Hf' : files w' !! f = Some fo).
  { subst w'. simpl. by rewrite lookup_insert_ne, lookup_insert_eq. }
  assert (Hpf' : files w' !! file fid2 = Some pf').
  { subst w'. simpl. rewrite Hsame. apply lookup_insert_eq. }
  assert (Hwalk : walks (files w') (uid fid2) (file fid2) [fcName fc] f
                    [DQid (dir fo)]).
  { apply (walks_cons _ _ (file fid2) (fcName fc) f fo); [|done|constructor].
    exists pf'. split; [done|]. right. split; [done|].
    split; [apply lookup_insert_eq|]. exists fo. split; [done|].
    apply walk_denied_never. }
  exists (set_fids <[fcNewfid tx := alloc (fidobjs w')]>
            (set_fidobjs <[alloc (fidobjs w') := mkFid f (uid fid2) false]>
               (set_rc (rc_Wqid (fcWqid (rc w') ++ [DQid (dir fo)])) w'))), f.
  split; [|split; [|split]].
  - rewrite (rwalk_loop tx w' p2 fid2).
    + by rewrite Hnames, (walk_loop_all _ _ _ _ _ _ Hwalk).
    + subst w'. simpl. by rewrite lookup_insert_ne.
    + subst w'. simpl. by rewrite lookup_insert_ne.
    + done.
    + subst w'. simpl. by rewrite lookup_insert_ne.
    + by rewrite Hnames.
    + by eexists.
  - subst w'. unfold fid_load. simpl. by rewrite !lookup_insert_eq.
  - unfold fid_load. simpl. by rewrite !lookup_insert_eq.
  - subst w'. reflexivity.
Qed.

Lemma rcreate_then_walk_witness :
  exists w' calls w'' f,
    rcreate (ex_host [] [] [] []) "/srv" (Tcreate_msg 2 "hello" 0x1A4 OWRITE)
      ex_world = Some ("", w', calls) /\
    rwalk (Twalk_msg 1 3 ["hello"]) w' = Some ("", w'') /\
    fid_load 3 w'' = Some (mkFid f "bob" false) /\
    fcWqid (rc w'') = [fcQid (rc w')].
Proof.
  destruct (rcreate (ex_host [] [] [] []) "/srv" (Tcreate_msg 2 "hello" 0x1A4 OWRITE)
              ex_world) as [[[emsg w'] calls]|] eqn:Hr;
    [|vm_compute in Hr; discriminate Hr].
  assert (emsg = "") as -> by (vm_compute in Hr; congruence).
  destruct (rcreate_then_walk _ _ _ _ _ _ (Twalk_msg 1 3 ["hello"])
              (mkFid 0%nat "mark" false) 0%nat (mkFid 0%nat "bob" false) Hr)
    as (w'' & f & Hw & _ & Hl & Hq); try done.
  by exists w', calls, w'', f.
Defined.

(** X14.  In the state a successful create leaves, the fid the create
    went through is open: a walk from it, with names or without, is
    answered "already open" and changes nothing.  (This is about the
    request that follows the create; a later walk with no names that
    names this fid as newfid binds it to another record.) *)
Theorem rcreate_then_walk_refused H Root fc w w' calls tx :
  rcreate H Root fc w = Some ("", w', calls) ->
  fcFid tx = fcFid fc ->
  rwalk tx w' = Some ("already open", w').
Proof.
  intros Hr Hk.
  destruct (rcreate_inv _ _ _ _ _ _ _ Hr) as [[He _]|[_ Hs]]; [done|].
  destruct Hs as (p & fid & pf & ch & info & stat & _ & _ & Hpf & _ & _ & _ & _ &
                  _ & _ & _ & _ & Hw & _).
  simpl in Hw. subst w'.
  apply (rwalk_from_open_fid tx _ (alloc (fidobjs w))
           (mkFid (alloc (files w)) (uid fid) true)); simpl.
  - rewrite Hk. apply lookup_insert_eq.
  - apply lookup_insert_eq.
  - done.
  - destruct (decide (file fid = alloc (files w))) as [Heq|Hne].
    + rewrite Heq, lookup_insert_eq. by eexists.
    + rewrite lookup_insert_ne, lookup_insert_eq by done. by eexists.
Qed.

Lemma rcreate_then_walk_refused_witness :
  exists w' calls,
    rcreate (ex_host [] [] [] []) "/srv" (Tcreate_msg 2 "hello" 0x1A4 OWRITE)
      ex_world = Some ("", w', calls) /\
    rwalk (Twalk_msg 2 3 []) w' = Some ("already open", w').
Proof.
  destruct (rcreate (ex_host [] [] [] []) "/srv" (Tcreate_msg 2 "hello" 0x1A4 OWRITE)
              ex_world) as [[[emsg w'] calls]|] eqn:Hr;
    [|vm_compute in Hr; discriminate Hr].
  assert (emsg = "") as -> by (vm_compute in Hr; congruence).
  exists w', calls. split; [reflexivity|].
  by apply (rcreate_then_walk_refused _ _ _ _ _ _ (Twalk_msg 2 3 []) Hr).
Defined.

Lemma append_not_self (q s : string) : s <> "" -> q <> q +:+ s.
Proof.
  intros Hs. induction q as [|a q IH]; intros Hq; simpl in Hq.
  - by subst.
  - injection Hq as Hq. by apply IH.
Qed.

Lemma writeOwnership_closes H path uid gid err calls :
  writeOwnership H path uid gid = (err, calls) ->
  forall p, Close p ∈ calls -> p = path +:+ ".vufs".
Proof.
  unfold writeOwnership. intros Hw p Hin.
  repeat case_match; simplify_eq;
    repeat (apply elem_of_cons in Hin as [Hin|Hin]; [by simplify_eq|]);
    by apply elem_of_nil in Hin.
Qed.

(** X15.  [rcreate] never closes the file it has created: whatever way a
    run takes after the creation, the only file it closes is the sidecar,
    so the file named in its first host call is left open. *)
Theorem rcreate_leaves_file_open H Root fc w emsg w' calls q flag mode rest :
  rcreate H Root fc w = Some (emsg, w', calls) ->
  calls = OpenFile q flag mode :: rest ->
  (Close q ∉ calls) /\ (forall p, Close p ∈ calls -> p = q +:+ ".vufs").
Proof.
  intros Hr Hc.
  assert (Hall : forall p, Close p ∈ calls -> p = q +:+ ".vufs").
  { intros p. revert Hr Hc. unfold rcreate, remove_after_failure. intros Hr.
    repeat case_match; simplify_eq; simpl; intros Hc; try discriminate Hc.
    all: injection Hc as <- <- <- <-; intros.
    all: repeat match goal with
           | Hw : writeOwnership _ _ _ _ = _ |- _ =>
               pose proof (writeOwnership_closes _ _ _ _ _ _ Hw p); clear Hw
           end.
    all: repeat match goal with
           | Hi : _ ∈ _ ++ _ |- _ => apply elem_of_app in Hi as [Hi|Hi]
           | Hi : _ ∈ _ :: _ |- _ =>
               apply elem_of_cons in Hi as [Hi|Hi]; [discriminate Hi|]
           | Hi : _ ∈ [] |- _ => by apply elem_of_nil in Hi
           end.
    all: auto. }
  split; [|exact Hall].
  intros Hin. apply Hall in Hin. revert Hin. by apply append_not_self.
Qed.

Lemma rcreate_leaves_file_open_witness :
  exists w' calls rest,
    rcreate (ex_host [] [] [] []) "/srv" (Tcreate_msg 2 "hello" 0x1A4 OWRITE)
      ex_world = Some ("", w', calls) /\
    calls = OpenFile "/srv/hello" (Z.lor O_WRONLY O_CREATE) 0x1A4 :: rest /\
    Close "/srv/hello" ∉ calls.
Proof.
  destruct (rcreate (ex_host [] [] [] []) "/srv" (Tcreate_msg 2 "hello" 0x1A4 OWRITE)
              ex_world) as [[[emsg w'] calls]|] eqn:Hr;
    [|vm_compute in Hr; discriminate Hr].
  assert (emsg = "") as -> by (vm_compute in Hr; congruence).
  assert (Hc : exists rest,
            calls = OpenFile "/srv/hello" (Z.lor O_WRONLY O_CREATE) 0x1A4 :: rest).
  { vm_compute in Hr. injection Hr as <- <-. by eexists. }
  destruct Hc as [rest Hc].
  exists w', calls, rest. split; [reflexivity|]. split; [exact Hc|].
  by destruct (rcreate_leaves_file_open _ _ _ _ _ _ _ _ _ _ _ Hr Hc).
Defined.

(** X16.  [rcreate_removes_after_stat], shown with the host calls of
    [rcreate]: a run that fails after [Stat] leaves the state as it was
    and ends with the removal of the file it had stated, its only
    removal; its message is the path below the root, a colon and the
    error of [Stat] or [info2stat], with " (and file was left on disk)"
    after it exactly when the removal fails.  Here on a host where [Stat]
    of the new file fails, once with a removal that fails and once with
    one that succeeds. *)
Lemma rcreate_removes_after_stat_witness :
  (exists w' calls before,
     rcreate (ex_host [] [] ["/srv/hello"] ["/srv/hello"]) "/srv"
       (Tcreate_msg 1 "hello" 0x1A4 OWRITE) ex_world =
       Some ("/hello: input/output error (and file was left on disk)", w', calls) /\
     calls = before ++ [Stat "/srv/hello"; Remove "/srv/hello"]) /\
  (exists w' calls before,
     rcreate (ex_host [] [] ["/srv/hello"] []) "/srv"
       (Tcreate_msg 1 "hello" 0x1A4 OWRITE) ex_world =
       Some ("/hello: input/output error", w', calls) /\
     calls = before ++ [Stat "/srv/hello"; Remove "/srv/hello"]).
Proof.
  split.
  - destruct (rcreate (ex_host [] [] ["/srv/hello"] ["/srv/hello"]) "/srv"
                (Tcreate_msg 1 "hello" 0x1A4 OWRITE) ex_world)
      as [[[emsg w'] calls]|] eqn:Hr; [|vm_compute in Hr; discriminate Hr].
    assert (Hs : Stat "/srv/hello" ∈ calls).
    { vm_compute in Hr. injection Hr as <- <- <-. rewrite !elem_of_cons. auto 10. }
    assert (He : emsg <> "").
    { vm_compute in Hr. injection Hr as <- <- <-. discriminate. }
    destruct (rcreate_removes_after_stat _ _ _ _ _ _ _ _ Hr He Hs)
      as (before & fid & pf & err & Hfid & Hpf & _ & Herr & Hc & _ & _ & Hm & _).
    vm_compute in Hfid. injection Hfid as <-.
    vm_compute in Hpf. injection Hpf as <-.
    assert (err = "input/output error") as ->.
    { destruct Herr as [Herr|(info & Herr & _)]; vm_compute in Herr;
        [by injection Herr as <-|discriminate Herr]. }
    exists w', calls, before. split; [|exact Hc].
    rewrite Hm; [reflexivity|]. by eexists.
  - destruct (rcreate (ex_host [] [] ["/srv/hello"] []) "/srv"
                (Tcreate_msg 1 "hello" 0x1A4 OWRITE) ex_world)
      as [[[emsg w'] calls]|] eqn:Hr; [|vm_compute in Hr; discriminate Hr].
    assert (Hs : Stat "/srv/hello" ∈ calls).
    { vm_compute in Hr. injection Hr as <- <- <-. rewrite !elem_of_cons. auto 10. }
    assert (He : emsg <> "").
    { vm_compute in Hr. injection Hr as <- <- <-. discriminate. }
    destruct (rcreate_removes_after_stat _ _ _ _ _ _ _ _ Hr He Hs)
      as (before & fid & pf & err & Hfid & Hpf & _ & Herr & Hc & _ & _ & _ & Hm).
    vm_compute in Hfid. injection Hfid as <-.
    vm_compute in Hpf. injection Hpf as <-.
    assert (err = "input/output error") as ->.
    { destruct Herr as [Herr|(info & Herr & _)]; vm_compute in Herr;
        [by injection Herr as <-|discriminate Herr]. }
    exists w', calls, before. split; [|exact Hc].
    rewrite Hm; reflexivity.
Defined.

(** X17.  [rcreate_no_remove_before_stat], shown with the host calls of
    [rcreate]: a run that does not get as far as [Stat] removes nothing.
    Here on a host where the creation of the file fails. *)
Lemma rcreate_no_remove_before_stat_witness :
  exists emsg w' calls,
    rcreate (ex_host ["/srv/hello"] [] [] []) "/srv"
      (Tcreate_msg 1 "hello" 0x1A4 OWRITE) ex_world = Some (emsg, w', calls) /\
    Remove "/srv/hello" ∉ calls.
Proof.
  destruct (rcreate (ex_host ["/srv/hello"] [] [] []) "/srv"
              (Tcreate_msg 1 "hello" 0x1A4 OWRITE) ex_world)
    as [[[emsg w'] calls]|] eqn:Hr; [|vm_compute in Hr; discriminate Hr].
  exists emsg, w', calls. split; [reflexivity|].
  apply (rcreate_no_remove_before_stat _ _ _ _ _ _ _ Hr).
  intros p Hin. vm_compute in Hr. injection Hr as <- <- <-.
  apply elem_of_cons in Hin as [Hin|Hin]; [discriminate|by apply elem_of_nil in Hin].
Defined.

(** ** Building the tree, continued *)

(** A new node that is its own parent and has no children keeps the tree
    well formed. *)
Lemma wf_files_add_root fs f fo :
  wf_files fs ->
  fs !! f = None ->
  parent fo = f ->
  (forall n c, map_get (children fo) n <> Some c) ->
  wf_files (<[f := fo]> fs).
Proof.
  intros Hwf Hf Hpar Hleaf.
  assert (Hstay : forall l co, fs !! l = Some co -> <[f := fo]> fs !! l = Some co).
  { intros l co Hl. rewrite lookup_insert_ne; [done|]. intros ->. congruence. }
  intros l fo0 Hl. destruct (decide (l = f)) as [->|Hlf].
  - rewrite lookup_insert_eq in Hl. assert (fo0 = fo) as -> by congruence. split.
    + rewrite Hpar, lookup_insert_eq. by eexists.
    + intros n c Hc. by apply Hleaf in Hc.
  - rewrite lookup_insert_ne in Hl by done.
    destruct (Hwf _ _ Hl) as [[fp Hfp] Hch]. split.
    + rewrite (Hstay _ _ Hfp). by eexists.
    + intros n c Hc. destruct (Hch _ _ Hc) as (co & Hco & ? & ?).
      exists co. by rewrite (Hstay _ _ Hco).
Qed.

(** One call of the walk's callback keeps what the walk keeps true. *)
Lemma buildnode_keeps H nullDir DEFAULT_USER Root path info err s s' :
  loaded_ok DEFAULT_USER Root s ->
  buildnode H nullDir DEFAULT_USER Root path info None s = Some (err, s') ->
  loaded_ok DEFAULT_USER Root s'.
Proof.
  intros (Hwf & Hmap & Hown & Hroot) Hb. unfold buildnode, buildfile in Hb.
  destruct (info2stat info) as [e|stat]; [by destruct s; simplify_eq|].
  destruct (negb (String.eqb path Root)) eqn:Hpr.
  - apply negb_true_iff, String.eqb_neq in Hpr.
    destruct (loadmap s !! Join H [path; ".."]) as [par|] eqn:Hpar;
      [|by destruct s; simplify_eq].
    destruct (lfiles s !! par) as [pf|] eqn:Hpf; [|discriminate].
    destruct (children pf) as [ch|] eqn:Hch; [|discriminate].
    simplify_eq.
    assert (Hfresh := alloc_fresh (lfiles s)).
    assert (Hne : par <> alloc (lfiles s)) by (intros ->; congruence).
    match goal with |- loaded_ok _ _ (mkLoading (<[par := ?x]> (<[_ := ?y]> _)) _) =>
      set (pf' := x); set (node := y) end.
    assert (Hstay : forall l co, lfiles s !! l = Some co ->
              exists co', <[par := pf']> (<[alloc (lfiles s) := node]> (lfiles s)) !! l
                          = Some co' /\ dir co' = dir co /\ parent co' = parent co /\
                          is_Some (children co')).
    { intros l co Hl. destruct (decide (l = par)) as [->|Hlp].
      - rewrite lookup_insert_eq. exists pf'. simplify_eq. repeat split; try done; by eexists.
      - rewrite !lookup_insert_ne; [|congruence|done]. exists co.
        repeat split; try done. by destruct (Hown _ _ Hl) as (_ & _ & _ & ?). }
    split; [|split; [|split]]; simpl.
    + apply wf_files_add_child; try done; intros n c; simpl; by rewrite lookup_empty.
    + intros path' l Hl. destruct (decide (path' = path)) as [->|Hpp].
      * rewrite lookup_insert_eq in Hl. simplify_eq.
        rewrite lookup_insert_ne, lookup_insert_eq by done. by eexists.
      * rewrite lookup_insert_ne in Hl by done.
        destruct (Hmap _ _ Hl) as [co Hco].
        destruct (Hstay _ _ Hco) as (co' & -> & _). by eexists.
    + intros l fo Hl. destruct (decide (l = par)) as [->|Hlp].
      * rewrite lookup_insert_eq in Hl. simplify_eq. simpl.
        destruct (Hown _ _ Hpf) as (? & ? & ? & _). repeat split; try done; by eexists.
      * rewrite lookup_insert_ne in Hl by done.
        destruct (decide (l = alloc (lfiles s))) as [->|Hlf].
        -- rewrite lookup_insert_eq in Hl. simplify_eq. simpl.
           repeat split; try done; by eexists.
        -- rewrite lookup_insert_ne in Hl by done. by apply Hown in Hl.
    + intros l Hl. rewrite lookup_insert_ne in Hl by done.
      destruct (Hroot _ Hl) as (fo & Hfo & Hp & Hn & Hm).
      destruct (Hstay _ _ Hfo) as (co' & Hco' & Hd & Hp' & _).
      exists co'. by rewrite Hd, Hp'.
  - apply negb_false_iff, String.eqb_eq in Hpr. simplify_eq.
    assert (Hfresh := alloc_fresh (lfiles s)).
    match goal with |- loaded_ok _ _ (mkLoading (<[_ := ?y]> _) _) =>
      set (node := y) end.
    assert (Hstay : forall l co, lfiles s !! l = Some co ->
              <[alloc (lfiles s) := node]> (lfiles s) !! l = Some co).
    { intros l co Hl. rewrite lookup_insert_ne; [done|]. intros <-. congruence. }
    split; [|split; [|split]]; simpl.
    + apply wf_files_add_root; try done; intros n c; simpl; by rewrite lookup_empty.
    + intros path' l Hl. destruct (decide (path' = Root)) as [->|Hpp].
      * rewrite lookup_insert_eq in Hl. simplify_eq. rewrite lookup_insert_eq.
        by eexists.
      * rewrite lookup_insert_ne in Hl by done.
        destruct (Hmap _ _ Hl) as [co Hco]. rewrite (Hstay _ _ Hco). by eexists.
    + intros l fo Hl. destruct (decide (l = alloc (lfiles s))) as [->|Hlf].
      * rewrite lookup_insert_eq in Hl. simplify_eq. simpl.
        repeat split; try done; by eexists.
      * rewrite lookup_insert_ne in Hl by done. by apply Hown in Hl.
    + intros l Hl. rewrite lookup_insert_eq in Hl. simplify_eq.
      exists node. by rewrite lookup_insert_eq.
Qed.

Lemma walk_entries_keeps H nullDir DEFAULT_USER Root entries :
  forall s err s',
    loaded_ok DEFAULT_USER Root s ->
    walk_entries H nullDir DEFAULT_USER Root entries s = Some (err, s') ->
    loaded_ok DEFAULT_USER Root s'.
Proof.
  induction entries as [|[path info] rest IH]; intros s err s' Hok Hw;
    cbn [walk_entries] in Hw.
  { by simplify_eq. }
  destruct (buildnode H nullDir DEFAULT_USER Root path info None s)
    as [[[e|] s1]|] eqn:Hb; [| |discriminate].
  - simplify_eq. by eapply buildnode_keeps.
  - eapply IH; [|done]. by eapply buildnode_keeps.
Qed.

Lemma loaded_ok_empty DEFAULT_USER Root : loaded_ok DEFAULT_USER Root (mkLoading ∅ ∅).
Proof.
  repeat split; simpl; intros *; rewrite ?lookup_empty; try done.
  all: intros Hl; by rewrite lookup_empty in Hl.
Qed.

(** X18.  The tree [buildtree] hands over is well formed; its root is its
    own parent, is named "/" and has mode 0777 whatever the host says; and
    the state a connection starts in over it is well formed. *)
Theorem buildtree_well_formed H nullDir DEFAULT_USER Root entries fs r MAX_MSIZE :
  buildtree H nullDir DEFAULT_USER Root entries = Some (inr (fs, r)) ->
  wf_files fs /\
  (exists fo, fs !! r = Some fo /\ parent fo = r /\
     Name (dir fo) = "/" /\ Mode (dir fo) = 0x1FF) /\
  wf_world (start_world MAX_MSIZE fs r).
Proof.
  unfold buildtree. intros Hb.
  destruct (walk_entries H nullDir DEFAULT_USER Root entries (mkLoading ∅ ∅))
    as [[[e|] s]|] eqn:Hw; [discriminate| |discriminate].
  destruct (loadmap s !! Root) as [l|] eqn:Hl; [|discriminate]. simplify_eq.
  destruct (walk_entries_keeps _ _ _ _ _ _ _ _ (loaded_ok_empty DEFAULT_USER Root) Hw)
    as (Hwf & _ & _ & Hroot).
  destruct (Hroot _ Hl) as (fo & Hfo & Hrest).
  split; [done|]. split; [by exists fo|].
  split; [done|]. split; [by exists fo|].
  simpl. intros k p Hk. by rewrite lookup_empty in Hk.
Qed.

Lemma buildtree_well_formed_witness :
  exists fs r fo,
    buildtree (ex_host [] [] [] []) ex_nullDir "adm" "/srv" ex_entries
      = Some (inr (fs, r)) /\
    fs !! r = Some fo /\ parent fo = r /\ Mode (dir fo) = 0x1FF.
Proof.
  destruct (buildtree (ex_host [] [] [] []) ex_nullDir "adm" "/srv" ex_entries)
    as [[e|[fs r]]|] eqn:Hb; [vm_compute in Hb; discriminate Hb|
                              |vm_compute in Hb; discriminate Hb].
  destruct (buildtree_well_formed _ _ _ _ _ _ _ 8216 Hb)
    as (_ & (fo & Hfo & Hp & _ & Hm) & _).
  by exists fs, r, fo.
Defined.

(** X19.  Every node of the tree [buildtree] hands over belongs to the
    default user, as owner, group and last modifier: no sidecar is read.
    And every node, regular files included, has a child map. *)
Theorem buildtree_default_owner H nullDir DEFAULT_USER Root entries fs r l fo :
  buildtree H nullDir DEFAULT_USER Root entries = Some (inr (fs, r)) ->
  fs !! l = Some fo ->
  Uid (dir fo) = DEFAULT_USER /\ Gid (dir fo) = DEFAULT_USER /\
  Muid (dir fo) = DEFAULT_USER /\ is_Some (children fo).
Proof.
  unfold buildtree. intros Hb Hl.
  destruct (walk_entries H nullDir DEFAULT_USER Root entries (mkLoading ∅ ∅))
    as [[[e|] s]|] eqn:Hw; [discriminate| |discriminate].
  destruct (loadmap s !! Root); [|discriminate]. simplify_eq.
  destruct (walk_entries_keeps _ _ _ _ _ _ _ _ (loaded_ok_empty DEFAULT_USER Root) Hw)
    as (_ & _ & Hown & _).
  by apply Hown in Hl.
Qed.

Lemma buildtree_default_owner_witness :
  exists fs r fo,
    buildtree (ex_host [] [] [] []) ex_nullDir "adm" "/srv" ex_entries
      = Some (inr (fs, r)) /\
    fs !! 1%nat = Some fo /\ Name (dir fo) = "x" /\ Uid (dir fo) = "adm".
Proof.
  destruct (buildtree (ex_host [] [] [] []) ex_nullDir "adm" "/srv" ex_entries)
    as [[e|[fs r]]|] eqn:Hb; [vm_compute in Hb; discriminate Hb|
                              |vm_compute in Hb; discriminate Hb].
  destruct (fs !! 1%nat) as [fo|] eqn:Hfo.
  - exists fs, r, fo. split; [reflexivity|]. split; [exact Hfo|]. split.
    + vm_compute in Hb. injection Hb as <- <-. vm_compute in Hfo. by injection Hfo as <-.
    + by destruct (buildtree_default_owner _ _ _ _ _ _ _ _ _ Hb Hfo) as [? _].
  - exfalso. vm_compute in Hb. injection Hb as <- <-. vm_compute in Hfo. discriminate Hfo.
Defined.

(** The walk loads nothing but the paths it is given. *)
Lemma buildnode_paths H nullDir DEFAULT_USER Root p info s err s1 q :
  buildnode H nullDir DEFAULT_USER Root p info None s = Some (err, s1) ->
  is_Some (loadmap s1 !! q) ->
  is_Some (loadmap s !! q) \/ q = p.
Proof.
  unfold buildnode. intros Hb Hq.
  destruct (buildfile H nullDir DEFAULT_USER Root p info s) as [[[e|f] fs]|];
    [| |discriminate]; injection Hb as <- <-; simpl in Hq; [by left|].
  destruct (decide (q = p)) as [-> |?]; [by right|].
  rewrite lookup_insert_ne in Hq by done. by left.
Qed.

Lemma walk_entries_paths H nullDir DEFAULT_USER Root entries :
  forall s err s' path,
    walk_entries H nullDir DEFAULT_USER Root entries s = Some (err, s') ->
    is_Some (loadmap s' !! path) ->
    is_Some (loadmap s !! path) \/ path ∈ entries.*1.
Proof.
  induction entries as [|[p info] rest IH]; intros s err s' path Hw Hin;
    cbn [walk_entries] in Hw.
  { simplify_eq. by left. }
  destruct (buildnode H nullDir DEFAULT_USER Root p info None s)
    as [[[e|] s1]|] eqn:Hb; [| |discriminate].
  - simplify_eq. destruct (buildnode_paths _ _ _ _ _ _ _ _ _ _ Hb Hin) as [?| ->];
      [by left|].
    right. simpl. apply elem_of_cons. by left.
  - destruct (IH _ _ _ _ Hw Hin) as [Hq|Hq].
    + destruct (buildnode_paths _ _ _ _ _ _ _ _ _ _ Hb Hq) as [?| ->]; [by left|].
      right. simpl. apply elem_of_cons. by left.
    + right. simpl. apply elem_of_cons. by right.
Qed.

(** X20.  [buildtree] hands over a tree only when the walk has yielded an
    entry for the root path itself: without one, however many entries
    there are, it does not succeed. *)
Theorem buildtree_needs_root H nullDir DEFAULT_USER Root entries fs r :
  buildtree H nullDir DEFAULT_USER Root entries = Some (inr (fs, r)) ->
  Root ∈ entries.*1.
Proof.
  unfold buildtree. intros Hb.
  destruct (walk_entries H nullDir DEFAULT_USER Root entries (mkLoading ∅ ∅))
    as [[[e|] s]|] eqn:Hw; [discriminate| |discriminate].
  destruct (loadmap s !! Root) as [l|] eqn:Hl; [|discriminate].
  destruct (walk_entries_paths _ _ _ _ _ _ _ _ Root Hw) as [[? Hq]|?];
    [by eexists| |done].
  simpl in Hq. by rewrite lookup_empty in Hq.
Qed.

Lemma buildtree_needs_root_witness :
  exists fs r,
    buildtree (ex_host [] [] [] []) ex_nullDir "adm" "/srv" ex_entries
      = Some (inr (fs, r)) /\
    "/srv" ∈ ex_entries.*1.
Proof.
  destruct (buildtree (ex_host [] [] [] []) ex_nullDir "adm" "/srv" ex_entries)
    as [[e|[fs r]]|] eqn:Hb; [vm_compute in Hb; discriminate Hb|
                              |vm_compute in Hb; discriminate Hb].
  exists fs, r. split; [reflexivity|].
  exact (buildtree_needs_root _ _ _ _ _ _ _ Hb).
Defined.

(** ** The dispatcher *)

Lemma wf_world_set_msize m w : wf_world (set_msize m w) <-> wf_world w.
Proof. reflexivity. Qed.

(** X21.  Every reply the dispatcher builds carries the tag of the
    request.  It is either Rerror with a message that is not empty, or it
    has the type of the request plus one and the fid of the request, and
    then the request was a Tversion, Tattach, Tstat, Tcreate or Twalk: a
    Tauth and a request of a type outside the table are always answered
    with Rerror, the latter with "bad fcall type" and without a host
    call. *)
Theorem fcallhandler_step_reply MAX_MSIZE H Root Bytes Reset pending x w w' calls st :
  fcallhandler_step MAX_MSIZE H Root Bytes Reset pending x w = Some (w', calls, st) ->
  fcTag (rc w') = fcTag x /\
  ((fcType (rc w') = Rerror /\ fcEname (rc w') <> "") \/
   (fcType (rc w') = fcType x + 1 /\ fcFid (rc w') = fcFid x /\
    fcType x ∈ [Tversion; Tattach; Tstat; Tcreate; Twalk])) /\
  (fcType x ∉ [Tversion; Tattach; Tauth; Tstat; Tcreate; Twalk] ->
   fcType (rc w') = Rerror /\ fcEname (rc w') = "bad fcall type" /\ calls = []).
Proof.
  unfold fcallhandler_step. intros Hs.
  match type of Hs with
  | match ?h with _ => _ end = _ => destruct h as [[[[emsg w1] c1] s1]|] eqn:Hh
  end; [|discriminate].
  injection Hs as <- <- <-.
  assert (Hresp : fcTag (rc (respond x emsg w1)) = fcTag x /\
            (emsg <> "" -> fcType (rc (respond x emsg w1)) = Rerror /\
                           fcEname (rc (respond x emsg w1)) = emsg) /\
            (emsg = "" -> fcType (rc (respond x emsg w1)) = fcType x + 1 /\
                          fcFid (rc (respond x emsg w1)) = fcFid x)).
  { unfold respond. split; [by destruct (negb _)|]. split.
    - intros He. apply String.eqb_neq in He. by rewrite He.
    - by intros ->. }
  destruct Hresp as (Htag & Herr & Hok).
  split; [done|].
  assert (Hin : forall t, fcType x = t ->
            t ∈ [Tversion; Tattach; Tstat; Tcreate; Twalk] ->
            (fcType (rc (respond x emsg w1)) = Rerror /\
             fcEname (rc (respond x emsg w1)) <> "") \/
            (fcType (rc (respond x emsg w1)) = fcType x + 1 /\
             fcFid (rc (respond x emsg w1)) = fcFid x /\
             fcType x ∈ [Tversion; Tattach; Tstat; Tcreate; Twalk])).
  { intros t Ht Hmem. destruct (decide (emsg = "")) as [He|He].
    - right. destruct (Hok He). split; [done|]. split; [done|]. by rewrite Ht.
    - left. destruct (Herr He) as [? ->]. done. }
  assert (Hbad : forall e, emsg = e -> e <> "" ->
            (fcType (rc (respond x emsg w1)) = Rerror /\
             fcEname (rc (respond x emsg w1)) <> "") \/
            (fcType (rc (respond x emsg w1)) = fcType x + 1 /\
             fcFid (rc (respond x emsg w1)) = fcFid x /\
             fcType x ∈ [Tversion; Tattach; Tstat; Tcreate; Twalk])).
  { intros e <- He. left. destruct (Herr He) as [? ->]. done. }
  destruct (fcType x =? Tversion) eqn:E1.
  { apply Z.eqb_eq in E1. split; [apply (Hin _ E1); (rewrite !elem_of_cons; auto 10)|].
    intros Hn. exfalso. apply Hn. rewrite E1. (rewrite !elem_of_cons; auto 10). }
  destruct (fcType x =? Tattach) eqn:E2.
  { apply Z.eqb_eq in E2. split; [apply (Hin _ E2); (rewrite !elem_of_cons; auto 10)|].
    intros Hn. exfalso. apply Hn. rewrite E2. (rewrite !elem_of_cons; auto 10). }
  destruct (fcType x =? Tauth) eqn:E3.
  { apply Z.eqb_eq in E3. simpl in Hh. injection Hh as <- <- <- <-.
    split; [by apply (Hbad "not supported")|].
    intros Hn. exfalso. apply Hn. rewrite E3. (rewrite !elem_of_cons; auto 10). }
  destruct (fcType x =? Tstat) eqn:E4.
  { apply Z.eqb_eq in E4. split; [apply (Hin _ E4); (rewrite !elem_of_cons; auto 10)|].
    intros Hn. exfalso. apply Hn. rewrite E4. (rewrite !elem_of_cons; auto 10). }
  destruct (fcType x =? Tcreate) eqn:E5.
  { apply Z.eqb_eq in E5. split; [apply (Hin _ E5); (rewrite !elem_of_cons; auto 10)|].
    intros Hn. exfalso. apply Hn. rewrite E5. (rewrite !elem_of_cons; auto 10). }
  destruct (fcType x =? Twalk) eqn:E6.
  { apply Z.eqb_eq in E6. split; [apply (Hin _ E6); (rewrite !elem_of_cons; auto 10)|].
    intros Hn. exfalso. apply Hn. rewrite E6. (rewrite !elem_of_cons; auto 10). }
  injection Hh as <- <- <- <-.
  split; [by apply (Hbad "bad fcall type")|].
  intros _. by destruct (Herr ltac:(discriminate)).
Qed.

Lemma fcallhandler_step_reply_witness :
  exists w' calls st,
    fcallhandler_step 8216 (ex_host [] [] [] []) "/srv" ex_Bytes ex_Reset false
      (Twalk_msg 1 3 ["d"]) ex_world = Some (w', calls, st) /\
    fcTag (rc w') = 7 /\ fcType (rc w') = Twalk + 1.
Proof.
  destruct (fcallhandler_step 8216 (ex_host [] [] [] []) "/srv" ex_Bytes ex_Reset false
              (Twalk_msg 1 3 ["d"]) ex_world) as [[[w' calls] st]|] eqn:Hs;
    [|vm_compute in Hs; discriminate Hs].
  exists w', calls, st. split; [reflexivity|].
  destruct (fcallhandler_step_reply _ _ _ _ _ _ _ _ _ _ _ Hs) as (Htag & _ & _).
  split; [exact Htag|].
  vm_compute in Hs. by injection Hs as <- _ _.
Defined.

(** One request, on a well-formed state: the state left is well formed,
    and no request other than a Tcreate panics. *)
Lemma fcallhandler_step_wf MAX_MSIZE H Root Bytes Reset pending x w :
  wf_world w ->
  (forall w' calls st,
     fcallhandler_step MAX_MSIZE H Root Bytes Reset pending x w = Some (w', calls, st) ->
     wf_world w') /\
  (fcType x <> Tcreate ->
   is_Some (fcallhandler_step MAX_MSIZE H Root Bytes Reset pending x w)).
Proof.
  intros Hwf. unfold fcallhandler_step.
  assert (Hwf1 : wf_world (set_rc Reset w)) by by apply wf_world_set_rc.
  set (w1 := set_rc Reset w) in *.
  destruct (fcType x =? Tversion).
  { unfold rversion. destruct (_ && _); (split; [|done]).
    - intros ??? [= <- _ _]. by apply wf_world_respond.
    - intros ??? [= <- _ _]. by apply wf_world_respond. }
  destruct (fcType x =? Tattach).
  { destruct (rattach_keeps_wf x w1 Hwf1) as (e & w2 & -> & Hwf2). split; [|done].
    intros ??? [= <- _ _]. by apply wf_world_respond. }
  destruct (fcType x =? Tauth).
  { split; [|done]. intros ??? [= <- _ _]. by apply wf_world_respond. }
  destruct (fcType x =? Tstat).
  { unfold rstat. destruct (fids w1 !! fcFid x) as [p|] eqn:Hp.
    - destruct Hwf1 as (? & ? & Hfids).
      destruct (Hfids _ _ Hp) as (fid & -> & [fo ->]).
      destruct (Bytes (dir fo)) as [? [?|]]; (split; [|done]);
        intros ??? [= <- _ _]; by apply wf_world_respond.
    - split; [|done]. intros ??? [= <- _ _]. by apply wf_world_respond. }
  destruct (fcType x =? Tcreate) eqn:E.
  { apply Z.eqb_eq in E. split; [|done].
    destruct (rcreate H Root x w1) as [[[e w2] c]|] eqn:Hr; [|done].
    intros ??? [= <- _ _]. apply wf_world_respond. by eapply rcreate_keeps_wf. }
  destruct (fcType x =? Twalk).
  { destruct (rwalk_keeps_wf x w1 Hwf1) as (e & w2 & -> & Hwf2). split; [|done].
    intros ??? [= <- _ _]. by apply wf_world_respond. }
  split; [|done]. intros ??? [= <- _ _]. by apply wf_world_respond.
Qed.

(** X22.  Served from a well-formed state, a sequence of requests leaves
    a well-formed state if the server gets through it; and it does get
    through every sequence without a Tcreate: version, attach, auth, stat,
    walk and requests of unknown type never panic. *)
Theorem serve_keeps_wf MAX_MSIZE H Root Bytes Reset xs :
  forall w,
    wf_world w ->
    (forall w', serve MAX_MSIZE H Root Bytes Reset xs w = Some w' -> wf_world w') /\
    ((forall px, px ∈ xs -> fcType px.2 <> Tcreate) ->
     is_Some (serve MAX_MSIZE H Root Bytes Reset xs w)).
Proof.
  induction xs as [|[pending x] xs IH]; intros w Hwf; cbn [serve].
  { split; [by intros ? [= <-]|done]. }
  destruct (fcallhandler_step_wf MAX_MSIZE H Root Bytes Reset pending x w Hwf)
    as [Hkeep Hsome].
  destruct (fcallhandler_step MAX_MSIZE H Root Bytes Reset pending x w)
    as [[[w1 c] s]|] eqn:Hs.
  - destruct (IH w1 (Hkeep _ _ _ eq_refl)) as [IH1 IH2]. split; [done|].
    intros Hno. apply IH2. intros px Hpx. apply Hno. by apply elem_of_cons; right.
  - split; [done|]. intros Hno.
    destruct Hsome as [? ?]; [|done].
    apply (Hno (pending, x)). by apply elem_of_cons; left.
Qed.

(** The example server is well formed. *)
Lemma ex_world_wf : wf_world ex_world.
Proof.
  split; [|split].
  - intros l fo Hl. unfold ex_world, ex_files in Hl. simpl in Hl.
    destruct (decide (l = 0%nat)) as [-> |?];
      [rewrite lookup_insert_eq in Hl|rewrite lookup_insert_ne in Hl by done;
       destruct (decide (l = 1%nat)) as [-> |?];
         [rewrite lookup_insert_eq in Hl|rewrite lookup_insert_ne in Hl by done;
          destruct (decide (l = 2%nat)) as [-> |?];
            [rewrite lookup_insert_eq in Hl
            |rewrite lookup_insert_ne in Hl by done;
             by rewrite lookup_empty in Hl]]].
    all: injection Hl as <-; (split; [by eexists|]); intros nm c Hc; simpl in Hc.
    + apply lookup_singleton_Some in Hc as [<- <-]. by exists ex_d.
    + apply lookup_singleton_Some in Hc as [<- <-]. by exists ex_x.
    + by rewrite lookup_empty in Hc.
  - by eexists.
  - intros k p Hk. unfold ex_world in Hk. simpl in Hk.
    destruct (decide (k = 1)) as [-> |?];
      [rewrite lookup_insert_eq in Hk|rewrite lookup_insert_ne in Hk by done;
       destruct (decide (k = 2)) as [-> |?];
         [rewrite lookup_insert_eq in Hk
         |rewrite lookup_insert_ne in Hk by done; by rewrite lookup_empty in Hk]].
    all: injection Hk as <-; eexists; (split; [reflexivity|]); by eexists.
Qed.

Lemma serve_keeps_wf_witness :
  wf_world ex_world /\
  exists w',
    serve 8216 (ex_host [] [] [] []) "/srv" ex_Bytes ex_Reset
      [(false, Tversion_msg 8192 "9P2000");
       (false, Tattach_msg 5 NOFID "mark" "/");
       (false, Twalk_msg 5 6 ["d"; "x"; ".."])] ex_world = Some w' /\
    wf_world w'.
Proof.
  split; [exact ex_world_wf|].
  destruct (serve_keeps_wf 8216 (ex_host [] [] [] []) "/srv" ex_Bytes ex_Reset
              [(false, Tversion_msg 8192 "9P2000");
               (false, Tattach_msg 5 NOFID "mark" "/");
               (false, Twalk_msg 5 6 ["d"; "x"; ".."])] ex_world ex_world_wf)
    as [Hk Hs].
  destruct Hs as [w' Hw'].
  { intros px Hpx. rewrite !elem_of_cons, elem_of_nil in Hpx.
    destruct Hpx as [-> |[-> |[-> |[]]]]; discriminate. }
  exists w'. split; [exact Hw'|]. by apply Hk.
Defined.

(** ** Open flags *)

(** X23.  [openflags] asks the host for the access the 9P mode names,
    read-only for OREAD and OEXEC, and for truncation, append and
    exclusive creation exactly as the mode and the permission ask; the
    flags do not run into each other, and creation is never among them. *)
Theorem openflags_bits mode perm :
  let ret := openflags mode perm in
  Z.land ret 3 =
    (if Z.land mode 3 =? OWRITE then O_WRONLY
     else if Z.land mode 3 =? ORDWR then O_RDWR else O_RDONLY) /\
  Z.land ret O_TRUNC = (if Z.land mode OTRUNC =? 0 then 0 else O_TRUNC) /\
  Z.land ret O_APPEND = (if Z.land perm DMAPPEND =? 0 then 0 else O_APPEND) /\
  Z.land ret O_EXCL = (if Z.land perm DMEXCL =? 0 then 0 else O_EXCL) /\
  Z.land ret O_CREATE = 0.
Proof.
  unfold openflags.
  destruct (Z.land mode OTRUNC =? 0), (Z.land perm DMAPPEND =? 0),
    (Z.land perm DMEXCL =? 0);
    destruct (Z.land mode 3 =? OREAD) eqn:E0;
    destruct (Z.land mode 3 =? ORDWR) eqn:E2;
    destruct (Z.land mode 3 =? OWRITE) eqn:E1;
    destruct (Z.land mode 3 =? OEXEC) eqn:E3;
    try (apply Z.eqb_eq in E0); try (apply Z.eqb_eq in E1);
    try (apply Z.eqb_eq in E2); try (apply Z.eqb_eq in E3);
    try (rewrite E0 in *; discriminate); try (rewrite E1 in *; discriminate);
    try (rewrite E2 in *; discriminate); try (rewrite E3 in *; discriminate);
    repeat split.
Qed.

(** ** Virtual users *)

(** A conjunct of an example: a fact at hand, or an evaluation. *)
Local Ltac given H := first [exact H | reflexivity].

Lemma occurrences_app p l l' :
  occurrences p (l ++ l') = (occurrences p l + occurrences p l')%nat.
Proof. unfold occurrences. by rewrite filter_app, length_app. Qed.

Lemma occurrences_one p q :
  occurrences p [q] = if decide (q = p) then 1%nat else 0%nat.
Proof.
  unfold occurrences. rewrite filter_cons, filter_nil.
  by destruct (decide (q = p)).
Qed.

(** The two updates of one membership, read at any pointer. *)
Lemma link_lookup (us : gmap loc vUser) user group p :
  alter (fun g => mkvUser (vu_id g) (vu_name g) (vu_members g ++ [user]) (vu_groups g))
    group
    (alter (fun u => mkvUser (vu_id u) (vu_name u) (vu_members u)
                       (vu_groups u ++ [group])) user us) !! p =
  (fun u => mkvUser (vu_id u) (vu_name u)
              (vu_members u ++ if decide (p = group) then [user] else [])
              (vu_groups u ++ if decide (p = user) then [group] else []))
    <$> us !! p.
Proof.
  destruct (decide (p = group)) as [Hg|Hg]; destruct (decide (p = user)) as [Hu|Hu].
  - subst. rewrite !lookup_alter_eq. by destruct (us !! user).
  - subst. rewrite lookup_alter_eq, lookup_alter_ne by done.
    destruct (us !! group) as [[]|]; simpl; [|done]. by rewrite app_nil_r.
  - subst. rewrite lookup_alter_ne, lookup_alter_eq by done.
    destruct (us !! user) as [[]|]; simpl; [|done]. by rewrite app_nil_r.
  - rewrite !lookup_alter_ne by done.
    destruct (us !! p) as [[]|]; simpl; [|done]. by rewrite !app_nil_r.
Qed.

Lemma users_ok_link us n2u user group :
  users_ok us n2u ->
  is_Some (us !! user) ->
  is_Some (us !! group) ->
  users_ok
    (alter (fun g => mkvUser (vu_id g) (vu_name g) (vu_members g ++ [user]) (vu_groups g))
       group
       (alter (fun u => mkvUser (vu_id u) (vu_name u) (vu_members u)
                          (vu_groups u ++ [group])) user us)) n2u.
Proof.
  intros (Hnames & Hptr & Hcount) Hu Hg.
  assert (Hstay : forall q, is_Some (us !! q) ->
            is_Some (alter (fun g => mkvUser (vu_id g) (vu_name g)
                                       (vu_members g ++ [user]) (vu_groups g)) group
                       (alter (fun u => mkvUser (vu_id u) (vu_name u) (vu_members u)
                                          (vu_groups u ++ [group])) user us) !! q)).
  { intros q [x Hx]. rewrite link_lookup, Hx. by eexists. }
  split; [|split].
  - intros nm p Hp. destruct (Hnames _ _ Hp) as (u & Hup & Hn).
    eexists. rewrite link_lookup, Hup. by split.
  - intros p u q Hp Hq. rewrite link_lookup in Hp.
    destruct (us !! p) as [u0|] eqn:Hu0; [|done]. simpl in Hp. simplify_eq.
    simpl in Hq. apply Hstay.
    rewrite !elem_of_app in Hq. destruct Hq as [[Hq|Hq]|[Hq|Hq]].
    + apply (Hptr p u0 q Hu0). apply elem_of_app. by left.
    + destruct (decide (p = user)); [|by apply elem_of_nil in Hq].
      apply list_elem_of_singleton in Hq. by subst.
    + apply (Hptr p u0 q Hu0). apply elem_of_app. by right.
    + destruct (decide (p = group)); [|by apply elem_of_nil in Hq].
      apply list_elem_of_singleton in Hq. by subst.
  - intros p q u g Hp Hq. rewrite link_lookup in Hp, Hq.
    destruct (us !! p) as [u0|] eqn:Hu0; [|done].
    destruct (us !! q) as [g0|] eqn:Hg0; [|done].
    simpl in Hp, Hq. simplify_eq. simpl.
    rewrite !occurrences_app, (Hcount p q u0 g0 Hu0 Hg0). f_equal.
    destruct (decide (p = user)) as [-> |?], (decide (q = group)) as [-> |?];
      rewrite ?occurrences_one; unfold occurrences; simpl;
      repeat case_decide; done.
Qed.

Lemma load_groups_ok n2u user groupNames :
  forall us us',
    users_ok us n2u ->
    is_Some (us !! user) ->
    load_groups n2u user groupNames us = Some us' ->
    users_ok us' n2u /\ is_Some (us' !! user).
Proof.
  induction groupNames as [|gn rest IH]; intros us us' Hok Hu Hl; simpl in Hl.
  { by simplify_eq. }
  destruct (Nat.eqb (String.length gn) 0); [by eapply IH|].
  destruct (n2u !! gn) as [group|] eqn:Hg; [|discriminate].
  assert (Hgs : is_Some (us !! group)).
  { destruct Hok as (Hnames & _). destruct (Hnames _ _ Hg) as (g & -> & _). by eexists. }
  eapply IH; [|  |exact Hl].
  - by apply users_ok_link.
  - rewrite link_lookup. destruct Hu as [u ->]. by eexists.
Qed.

Lemma load_members_ok n2u lines :
  forall us us',
    users_ok us n2u ->
    load_members n2u lines us = Some us' ->
    users_ok us' n2u.
Proof.
  induction lines as [|line rest IH]; intros us us' Hok Hl; simpl in Hl.
  { by simplify_eq. }
  destruct (skipped line); [by eapply IH|].
  destruct (split_byte ":" line !! 1%nat) as [name|]; [|discriminate].
  destruct (split_byte ":" line !! 2%nat) as [groups|]; [|discriminate].
  destruct (n2u !! name) as [user|] eqn:Hu; [|discriminate].
  destruct (load_groups n2u user (split_byte "," groups) us) as [us1|] eqn:Hg;
    [|discriminate].
  eapply IH; [|exact Hl].
  eapply load_groups_ok; [done| |done].
  destruct Hok as (Hnames & _). destruct (Hnames _ _ Hu) as (u & -> & _). by eexists.
Qed.

(** What the first loop keeps true: users are filed under their names and
    have no groups and no members yet. *)
Lemma load_names_ok Atoi lines :
  forall idx us n2u us' n2u',
    (forall nm p, n2u !! nm = Some p -> exists u, us !! p = Some u /\ vu_name u = nm) ->
    (forall p u, us !! p = Some u -> vu_groups u = [] /\ vu_members u = []) ->
    load_names Atoi lines idx us n2u = inr (us', n2u') ->
    (forall nm p, n2u' !! nm = Some p -> exists u, us' !! p = Some u /\ vu_name u = nm) /\
    (forall p u, us' !! p = Some u -> vu_groups u = [] /\ vu_members u = []).
Proof.
  induction lines as [|line rest IH]; intros idx us n2u us' n2u' Hnames Hempty Hl;
    simpl in Hl.
  { by simplify_eq. }
  destruct (skipped line); [by eapply IH|].
  destruct (negb _); [discriminate|].
  destruct (Atoi _) as [id|]; [|discriminate].
  eapply IH; [| |exact Hl].
  - intros nm p Hp. destruct (decide (nm = nth 1 (split_byte ":" line) "")) as [-> |Hn].
    + rewrite lookup_insert_eq in Hp. simplify_eq. eexists.
      by rewrite lookup_insert_eq.
    + rewrite lookup_insert_ne in Hp by done.
      destruct (Hnames _ _ Hp) as (u & Hu & ?). exists u. split; [|done].
      rewrite lookup_insert_ne; [done|]. intros <-. by rewrite alloc_fresh in Hu.
  - intros p u Hp. destruct (decide (p = alloc us)) as [-> |Hn].
    + rewrite lookup_insert_eq in Hp. by simplify_eq.
    + rewrite lookup_insert_ne in Hp by done. by eapply Hempty.
Qed.

(** A load that succeeds leaves [users_ok]. *)
Lemma NewVusers_ok Atoi range data up :
  NewVusers Atoi range data = Some (inr up) ->
  users_ok (vusers up) (nameToUser up).
Proof.
  unfold NewVusers. intros Hn.
  destruct (load_names Atoi (split_byte "010" data) 0 ∅ ∅) as [e|[us n2u]] eqn:H1;
    [discriminate|].
  destruct (load_members n2u (split_byte "010" data) us) as [us2|] eqn:H2;
    [|discriminate].
  destruct (load_ids us2 (range n2u) ∅) as [i2u|]; [|discriminate].
  simplify_eq. simpl.
  apply load_names_ok in H1 as [Hnames Hempty].
  - eapply load_members_ok; [|exact H2]. split; [done|]. split.
    + intros p u q Hp Hq. destruct (Hempty _ _ Hp) as [Hg Hm].
      rewrite Hg, Hm in Hq. by apply elem_of_nil in Hq.
    + intros p q u g Hp Hq. destruct (Hempty _ _ Hp) as [-> _].
      by destruct (Hempty _ _ Hq) as [_ ->].
  - intros nm p Hp. by rewrite lookup_empty in Hp.
  - intros p u Hp. by rewrite lookup_empty in Hp.
Qed.

(** X24.  Membership is kept in both directions: after a load that
    succeeded, a group is among the groups of a user exactly as often as
    the user is among the members of the group. *)
Theorem NewVusers_membership Atoi range data up p q u g :
  NewVusers Atoi range data = Some (inr up) ->
  vusers up !! p = Some u ->
  vusers up !! q = Some g ->
  occurrences q (vu_groups u) = occurrences p (vu_members g).
Proof.
  intros Hn. destruct (NewVusers_ok _ _ _ _ Hn) as (_ & _ & Hcount). apply Hcount.
Qed.

Lemma NewVusers_membership_witness :
  exists up u g,
    NewVusers ex_Atoi ex_range ex_users = Some (inr up) /\
    vusers up !! 1%nat = Some u /\ vu_name u = "mark" /\
    vusers up !! 2%nat = Some g /\ vu_name g = "staff" /\
    occurrences 2%nat (vu_groups u) = 1%nat /\
    occurrences 1%nat (vu_members g) = 1%nat.
Proof.
  destruct (NewVusers ex_Atoi ex_range ex_users) as [[e|up]|] eqn:Hn;
    [vm_compute in Hn; discriminate Hn| |vm_compute in Hn; discriminate Hn].
  destruct (vusers up !! 1%nat) as [u|] eqn:Hu;
    [|vm_compute in Hn; injection Hn as <-; vm_compute in Hu; discriminate Hu].
  destruct (vusers up !! 2%nat) as [g|] eqn:Hg;
    [|vm_compute in Hn; injection Hn as <-; vm_compute in Hg; discriminate Hg].
  pose proof (NewVusers_membership _ _ _ _ _ _ _ _ Hn Hu Hg) as Hm.
  assert (Hfacts : vu_name u = "mark" /\ vu_name g = "staff" /\
                   occurrences 2%nat (vu_groups u) = 1%nat).
  { vm_compute in Hn. injection Hn as <-. vm_compute in Hu, Hg.
    injection Hu as <-. injection Hg as <-. by repeat split. }
  destruct Hfacts as (Hnu & Hng & Ho).
  exists up, u, g. split; [given Hn|]. split; [given Hu|]. split; [given Hnu|].
  split; [given Hg|]. split; [given Hng|]. split; [given Ho|]. by rewrite <- Hm.
Defined.

(** X25.  After a load that succeeded a name leads to a user object of
    that name, every pointer in a list of groups or members leads to a
    user object, and so [IsMember] does not panic on loaded users. *)
Theorem NewVusers_names Atoi range data up :
  NewVusers Atoi range data = Some (inr up) ->
  (forall uname p, Uname2User up uname = Some p ->
     exists u, vusers up !! p = Some u /\ vu_name u = uname) /\
  (forall p u q, vusers up !! p = Some u ->
     q ∈ vu_groups u ++ vu_members u -> is_Some (vusers up !! q)) /\
  (forall p q, is_Some (vusers up !! p) -> is_Some (vusers up !! q) ->
     is_Some (IsMember (vusers up) p q)).
Proof.
  intros Hn. destruct (NewVusers_ok _ _ _ _ Hn) as (Hnames & Hptr & _).
  split; [done|]. split; [done|].
  intros p q [u Hu] [g Hg]. unfold IsMember. rewrite Hu, Hg.
  assert (Hall : forall b, b ∈ vu_groups u -> is_Some (vusers up !! b)).
  { intros b Hb. apply (Hptr p u b Hu). apply elem_of_app. by left. }
  induction (vu_groups u) as [|b rest IH]; [by eexists|].
  destruct (Hall b) as [bo Hbo]; [by apply elem_of_cons; left|].
  simpl. rewrite Hbo.
  destruct (vu_id bo =? vu_id g); [by eexists|].
  apply IH. intros b' Hb'. apply Hall. by apply elem_of_cons; right.
Qed.

Lemma NewVusers_names_witness :
  exists up p u,
    NewVusers ex_Atoi ex_range ex_users = Some (inr up) /\
    Uname2User up "mark" = Some p /\
    vusers up !! p = Some u /\ vu_name u = "mark".
Proof.
  destruct (NewVusers ex_Atoi ex_range ex_users) as [[e|up]|] eqn:Hn;
    [vm_compute in Hn; discriminate Hn| |vm_compute in Hn; discriminate Hn].
  destruct (Uname2User up "mark") as [p|] eqn:Hp;
    [|vm_compute in Hn; injection Hn as <-; vm_compute in Hp; discriminate Hp].
  destruct (NewVusers_names _ _ _ _ Hn) as (Hnames & _).
  destruct (Hnames _ _ Hp) as (u & Hu & Hnm).
  exists up, p, u. split; [given Hn|]. split; [given Hp|]. split; [given Hu|given Hnm].
Defined.

(** The third loop: an id that is filed leads to an object that was
    ranged over and has that id, or was filed before; and an id, once
    filed, stays filed. *)
Lemma load_ids_sound us order :
  forall i2u i2u' i p,
    load_ids us order i2u = Some i2u' ->
    i2u' !! i = Some p ->
    i2u !! i = Some p \/
    exists nm u, (nm, p) ∈ order /\ us !! p = Some u /\ vu_id u = i.
Proof.
  induction order as [|[nm user] rest IH]; intros i2u i2u' i p Hl Hi; simpl in Hl.
  { simplify_eq. by left. }
  destruct (us !! user) as [u|] eqn:Hu; [|discriminate].
  destruct (IH _ _ _ _ Hl Hi) as [Hold|(nm' & u' & Hin & ? & ?)].
  - destruct (decide (i = vu_id u)) as [-> |Hne].
    + rewrite lookup_insert_eq in Hold. simplify_eq. right.
      exists nm, u. split; [by apply elem_of_cons; left|done].
    + rewrite lookup_insert_ne in Hold by done. by left.
  - right. exists nm', u'. split; [by apply elem_of_cons; right|done].
Qed.

Lemma load_ids_complete us order :
  forall i2u i2u',
    load_ids us order i2u = Some i2u' ->
    (forall i, is_Some (i2u !! i) -> is_Some (i2u' !! i)) /\
    (forall nm p u, (nm, p) ∈ order -> us !! p = Some u ->
       is_Some (i2u' !! vu_id u)).
Proof.
  induction order as [|[nm user] rest IH]; intros i2u i2u' Hl; simpl in Hl.
  { simplify_eq. split; [done|]. intros ??? Hin. by apply elem_of_nil in Hin. }
  destruct (us !! user) as [u|] eqn:Hu; [|discriminate].
  destruct (IH _ _ Hl) as [Hmono Hall]. split.
  - intros i Hi. apply Hmono. destruct (decide (i = vu_id u)) as [-> |?].
    + rewrite lookup_insert_eq. by eexists.
    + by rewrite lookup_insert_ne.
  - intros nm' p u' Hin Hp. apply elem_of_cons in Hin as [Heq|Hin].
    + simplify_eq. apply Hmono. rewrite lookup_insert_eq. by eexists.
    + by eapply Hall.
Qed.

(** X26.  Whatever the order the map is ranged over in, as long as it
    hands out the entries of the map: after a load that succeeded an id
    leads to a user that is filed under some name and has that id, and the
    id of every user that is filed under a name leads to a user. *)
Theorem NewVusers_ids Atoi range data up :
  (forall m x, x ∈ range m <-> x ∈ map_to_list m) ->
  NewVusers Atoi range data = Some (inr up) ->
  (forall uid p, Uid2User up uid = Some p ->
     exists uname u, Uname2User up uname = Some p /\
       vusers up !! p = Some u /\ vu_id u = uid) /\
  (forall uname p u, Uname2User up uname = Some p -> vusers up !! p = Some u ->
     is_Some (Uid2User up (vu_id u))).
Proof.
  intros Hrange Hn. unfold NewVusers in Hn.
  destruct (load_names Atoi (split_byte "010" data) 0 ∅ ∅) as [e|[us n2u]];
    [discriminate|].
  destruct (load_members n2u (split_byte "010" data) us) as [us2|]; [|discriminate].
  destruct (load_ids us2 (range n2u) ∅) as [i2u|] eqn:Hids; [|discriminate].
  simplify_eq. unfold Uid2User, Uname2User. simpl. split.
  - intros uid p Hp.
    destruct (load_ids_sound _ _ _ _ _ _ Hids Hp) as [Hold|(nm & u & Hin & ? & ?)].
    + by rewrite lookup_empty in Hold.
    + exists nm, u. split; [|done]. by apply elem_of_map_to_list, Hrange.
  - intros uname p u Hp Hu.
    destruct (load_ids_complete _ _ _ _ Hids) as [_ Hall].
    apply (Hall uname p u); [|done]. by apply Hrange, elem_of_map_to_list.
Qed.

Lemma NewVusers_ids_witness :
  exists up p u,
    NewVusers ex_Atoi ex_range ex_users = Some (inr up) /\
    Uid2User up 2 = Some p /\ vusers up !! p = Some u /\ vu_id u = 2.
Proof.
  destruct (NewVusers ex_Atoi ex_range ex_users) as [[e|up]|] eqn:Hn;
    [vm_compute in Hn; discriminate Hn| |vm_compute in Hn; discriminate Hn].
  destruct (Uid2User up 2) as [p|] eqn:Hp;
    [|vm_compute in Hn; injection Hn as <-; vm_compute in Hp; discriminate Hp].
  destruct (NewVusers_ids ex_Atoi ex_range ex_users up) as (Hids & _);
    [intros m x; reflexivity|exact Hn|].
  destruct (Hids _ _ Hp) as (nm & u & _ & Hu & Hi).
  exists up, p, u. split; [given Hn|]. split; [given Hp|]. split; [given Hu|given Hi].
Defined.

(** ** Host users *)

Lemma once_Do_initOsusers_ok s :
  os_ok s ->
  os_ok (once_Do_initOsusers s) /\ once (once_Do_initOsusers s) = true /\
  once_Do_initOsusers (once_Do_initOsusers s) = once_Do_initOsusers s.
Proof.
  intros Hok. unfold once_Do_initOsusers. destruct (once s) eqn:Ho.
  - by rewrite Ho.
  - split; [|done]. intros _. exists ∅, ∅. split; [done|].
    split; intros ?? Hl; by rewrite lookup_empty in Hl.
Qed.

(** X27.  The table of host users hands out one object for an id: on a
    state where the tables agree with the objects, as the starting state
    is, [Uid2User] does not panic, the object it hands out is the id asked
    for, asking again hands out the same object and changes nothing,
    asking for another id hands out another object, and the tables still
    agree with the objects. *)
Theorem osUid2User_memo uid s :
  os_ok s ->
  exists p s',
    osUid2User uid s = Some (p, s') /\
    osUserObjs s' !! p = Some uid /\
    osUid2User uid s' = Some (p, s') /\
    os_ok s' /\
    forall uid' p' s'',
      uid' <> uid -> osUid2User uid' s' = Some (p', s'') -> p' <> p.
Proof.
  intros Hok. unfold osUid2User at 1.
  destruct (once_Do_initOsusers_ok s Hok) as (Hok1 & Hdone & Hagain).
  set (s1 := once_Do_initOsusers s) in *.
  destruct (Hok1 Hdone) as (us & gs & Ht & Hu & Hg). rewrite Ht. simpl.
  assert (Hidle : forall s2, once s2 = true -> once_Do_initOsusers s2 = s2).
  { intros s2 H2. unfold once_Do_initOsusers. by rewrite H2. }
  destruct (us !! uid) as [p|] eqn:Hp.
  - exists p, s1. split; [done|]. split; [by apply Hu|].
    split; [unfold osUid2User; rewrite Hidle, Ht by done; simpl; by rewrite Hp|].
    split; [done|].
    intros uid' p' s'' Hne Hcall. unfold osUid2User in Hcall.
    rewrite Hidle, Ht in Hcall by done. simpl in Hcall.
    destruct (us !! uid') as [p2|] eqn:Hp2; simplify_eq.
    + intros ->. apply Hu in Hp, Hp2. congruence.
    + intros Heq. apply Hu in Hp. by rewrite <- Heq, alloc_fresh in Hp.
  - eexists _, _. split; [done|]. simpl.
    split; [apply lookup_insert_eq|].
    split; [unfold osUid2User; rewrite Hidle by done; simpl;
            by rewrite lookup_insert_eq|].
    split.
    { intros _. eexists _, _. split; [done|]. simpl. split; [|done].
      intros uid0 p0 H0. destruct (decide (uid0 = uid)) as [-> |?].
      - rewrite lookup_insert_eq in H0. simplify_eq. apply lookup_insert_eq.
      - rewrite lookup_insert_ne in H0 by done.
        rewrite lookup_insert_ne; [by apply Hu|].
        intros <-. apply Hu in H0. by rewrite alloc_fresh in H0. }
    intros uid' p' s'' Hne Hcall. unfold osUid2User in Hcall.
    rewrite Hidle in Hcall by done. simpl in Hcall.
    rewrite lookup_insert_ne in Hcall by done.
    destruct (us !! uid') as [p2|] eqn:Hp2; simplify_eq.
    + intros ->. apply Hu in Hp2. by rewrite alloc_fresh in Hp2.
    + intros Heq.
      pose proof (alloc_fresh (<[alloc (osUserObjs (once_Do_initOsusers s)) := uid]>
                                 (osUserObjs (once_Do_initOsusers s)))) as Hf.
      by rewrite Heq, lookup_insert_eq in Hf.
Qed.

Lemma osUid2User_memo_witness :
  os_ok os_start /\
  exists p s',
    osUid2User 1000 os_start = Some (p, s') /\
    osUserObjs s' !! p = Some 1000 /\
    osUid2User 1000 s' = Some (p, s').
Proof.
  assert (Hok : os_ok os_start) by (intros Ho; discriminate Ho).
  split; [exact Hok|].
  destruct (osUid2User_memo 1000 os_start Hok) as (p & s' & H1 & H2 & H3 & _).
  exists p, s'. split; [given H1|]. split; [given H2|given H3].
Defined.

(** X28.  The table of groups does the same, and neither table disturbs
    the other: [Gid2Group] does not panic on such a state, hands out the
    object that is the id asked for and the same object when asked again,
    leaves the tables in agreement with the objects, and leaves every
    answer of [Uid2User] that was there as it was. *)
Theorem osGid2Group_memo gid s :
  os_ok s ->
  exists p s',
    osGid2Group gid s = Some (p, s') /\
    osGroupObjs s' !! p = Some gid /\
    osGid2Group gid s' = Some (p, s') /\
    os_ok s' /\
    forall uid q,
      once s = true -> osUid2User uid s = Some (q, s) ->
      osUid2User uid s' = Some (q, s').
Proof.
  intros Hok. unfold osGid2Group at 1.
  destruct (once_Do_initOsusers_ok s Hok) as (Hok1 & Hdone & Hagain).
  assert (Hidle : forall s2, once s2 = true -> once_Do_initOsusers s2 = s2).
  { intros s2 H2. unfold once_Do_initOsusers. by rewrite H2. }
  set (s1 := once_Do_initOsusers s) in *.
  destruct (Hok1 Hdone) as (us & gs & Ht & Hu & Hg). rewrite Ht. simpl.
  destruct (gs !! gid) as [p|] eqn:Hp.
  - exists p, s1. split; [done|]. split; [by apply Hg|].
    split; [unfold osGid2Group; rewrite Hidle, Ht by done; simpl; by rewrite Hp|].
    split; [done|].
    intros uid q Ho Hcall. unfold s1. by rewrite (Hidle s Ho).
  - eexists _, _. split; [done|]. simpl.
    split; [apply lookup_insert_eq|].
    split; [unfold osGid2Group; rewrite Hidle by done; simpl;
            by rewrite lookup_insert_eq|].
    split.
    { intros _. eexists _, _. split; [done|]. simpl. split; [done|].
      intros gid0 p0 H0. destruct (decide (gid0 = gid)) as [-> |?].
      - rewrite lookup_insert_eq in H0. simplify_eq. apply lookup_insert_eq.
      - rewrite lookup_insert_ne in H0 by done.
        rewrite lookup_insert_ne; [by apply Hg|].
        intros <-. apply Hg in H0. by rewrite alloc_fresh in H0. }
    intros uid q Ho Hcall. unfold osUid2User in Hcall |- *.
    rewrite Hidle in Hcall by done. rewrite Hidle by done. simpl.
    unfold s1 in Ht. rewrite (Hidle s Ho) in Ht. rewrite Ht in Hcall.
    simpl in Hcall. destruct (us !! uid) as [q'|] eqn:Hq.
    + simplify_eq. done.
    + exfalso. injection Hcall as _ Hs.
      apply (f_equal osUserObjs) in Hs. simpl in Hs.
      apply (f_equal (fun m => m !! alloc (osUserObjs s))) in Hs. simpl in Hs.
      by rewrite lookup_insert_eq, alloc_fresh in Hs.
Qed.

Lemma osGid2Group_memo_witness :
  os_ok os_start /\
  exists p s',
    osGid2Group 100 os_start = Some (p, s') /\
    osGroupObjs s' !! p = Some 100 /\
    osGid2Group 100 s' = Some (p, s').
Proof.
  assert (Hok : os_ok os_start) by (intros Ho; discriminate Ho).
  split; [exact Hok|].
  destruct (osGid2Group_memo 100 os_start Hok) as (p & s' & H1 & H2 & H3 & _).
  exists p, s'. split; [given H1|]. split; [given H2|given H3].
Defined.
